(** * commandmocker: a shallow embedding of mocker.go

    The Go package keeps three pieces of process-wide state: the registry
    [running] (name -> temporary directory), the environment (of which only
    PATH and TMPDIR matter) and the filesystem.  They are gathered in one
    record, [World], that every operation threads explicitly.  Byte strings
    are Rocq strings (one [ascii] per byte), Go's [int] is [Z]. *)

From Stdlib Require Import ZArith NArith Ascii String List Lia DecimalString.
From stdpp Require Import gmap strings list fin_maps.

Open Scope Z_scope.

(** ** Go strings *)

Module GoString.

Definition len (s : string) : Z := Z.of_nat (String.length s).

(** [s[:n]] and [s[n:]] on the underlying bytes, without the bounds check. *)
Fixpoint take (n : nat) (s : string) : string :=
  match n, s with
  | S n', String c s' => String c (take n' s')
  | _, _ => EmptyString
  end.

Fixpoint drop (n : nat) (s : string) : string :=
  match n, s with
  | S n', String _ s' => drop n' s'
  | _, _ => s
  end.

(** Slice expressions panic when the index is out of range. *)
Definition slice_to (s : string) (hi : Z) : option string :=
  if (0 <=? hi) && (hi <=? len s) then Some (take (Z.to_nat hi) s) else None.

Definition slice_from (s : string) (lo : Z) : option string :=
  if (0 <=? lo) && (lo <=? len s) then Some (drop (Z.to_nat lo) s) else None.

(** [strings.HasPrefix(s, prefix)] *)
Definition HasPrefix (s pre : string) : bool := String.prefix pre s.

(** [strings.HasSuffix(s, suffix)] *)
Definition HasSuffix (s suf : string) : bool :=
  (String.length suf <=? String.length s)%nat
  && bool_decide (drop (String.length s - String.length suf) s = suf).

(** First byte offset at which [sub] occurs in [s]. *)
Fixpoint index_of (sub s : string) : option nat :=
  if String.prefix sub s then Some O
  else match s with
       | EmptyString => None
       | String _ s' => option_map S (index_of sub s')
       end.

(** [strings.Index(s, substr)]: the offset, or -1. *)
Definition Index (s sub : string) : Z :=
  match index_of sub s with
  | Some n => Z.of_nat n
  | None => -1
  end.

Fixpoint contains_byte (c : ascii) (s : string) : bool :=
  match s with
  | EmptyString => false
  | String a s' => if Ascii.eqb a c then true else contains_byte c s'
  end.

(** [strings.Split(s, sep)] for a one-byte separator: never empty. *)
Fixpoint split_on (c : ascii) (s : string) : list string :=
  match s with
  | EmptyString => [EmptyString]
  | String a s' =>
      if Ascii.eqb a c then EmptyString :: split_on c s'
      else match split_on c s' with
           | x :: xs => String a x :: xs
           | [] => [String a EmptyString]
           end
  end.

(** [strings.Join(l, sep)] *)
Fixpoint join (sep : string) (l : list string) : string :=
  match l with
  | [] => EmptyString
  | [x] => x
  | x :: xs => x +:+ sep +:+ join sep xs
  end.

End GoString.

Import GoString.

Definition NUL : ascii := "000"%char.
Definition LF : ascii := "010"%char.
Definition CR : ascii := "013"%char.
Definition DQ : ascii := "034"%char.
Definition nl : string := String LF EmptyString.
Definition dq : string := String DQ EmptyString.

(** ** Package path: [Clean] and [Join] (lexical processing only) *)

Module path.

(** One pass over the path elements, [stack] holding the kept elements
    innermost first: empty and [.] elements are skipped, [..] removes the
    element before it, is dropped at the root and kept in a relative path. *)
Fixpoint clean_elems (rooted : bool) (elems stack : list string) : list string :=
  match elems with
  | [] => rev stack
  | e :: rest =>
      if decide (e = "" ∨ e = ".") then clean_elems rooted rest stack
      else if decide (e = "..") then
        match stack with
        | top :: below =>
            if decide (top = "..") then clean_elems rooted rest (e :: stack)
            else clean_elems rooted rest below
        | [] => if rooted then clean_elems rooted rest []
                else clean_elems rooted rest [e]
        end
      else clean_elems rooted rest (e :: stack)
  end.

Definition Clean (p : string) : string :=
  match p with
  | EmptyString => "."
  | String c _ =>
      let rooted := Ascii.eqb c "/"%char in
      let kept := clean_elems rooted (split_on "/" p) [] in
      if rooted then "/" +:+ join "/" kept
      else match kept with [] => "." | _ => join "/" kept end
  end.

(** [Join] skips empty elements, and cleans the result unless it is empty. *)
Definition Join (elem : list string) : string :=
  match filter (λ e, e ≠ "") elem with
  | [] => ""
  | nonempty => Clean (join "/" nonempty)
  end.

(** The proper ancestors of a clean path, outermost first: what stands
    before each slash but the leading one. *)
Fixpoint ancestors_from (before rest : string) : list string :=
  match rest with
  | EmptyString => []
  | String c rest' =>
      if Ascii.eqb c "/"%char
      then (if decide (before = "") then [] else [before])
             ++ ancestors_from (before +:+ "/") rest'
      else ancestors_from (before +:+ String c EmptyString) rest'
  end.

Definition ancestors (p : string) : list string := ancestors_from "" p.

End path.

(** ** The operating system

    Errors of system calls.  [ENOENT], [ENOTDIR], [EISDIR] and [EINVAL] follow
    from the arguments and the filesystem tree; a [refusal] stands for what the
    tree does not show (permissions, a read-only mount, a full disk). *)

Inductive refusal := EACCES | EROFS | ENOSPC | EIO.

Inductive errno := ENOENT | ENOTDIR | EISDIR | EINVAL | Refused (r : refusal).

Inductive syscall := SysStat | SysMkdir | SysOpen | SysWrite | SysRemove.

Inductive node := Dir | File (data : string).

(** Errors a caller of the package can get back. *)
Inductive error :=
| OSError (e : errno)                (* a PathError or SyscallError *)
| TemplateError (msg : string)       (* from text/template *)
| InvalidTarget (tempdir : string)   (* "Remove can only remove temporary directories, ..." *)
| NotInSearchPath (tempdir : string) (* "%q is not in $PATH" *).

Record World := mkWorld {
  running : gmap string string;      (* var running map[string]string *)
  environ : gmap string string;      (* the process environment *)
  fs : gmap string node;             (* files and directories, by clean path *)
  entropy : nat → N;                 (* crypto/rand, in blocks of 8 bytes *)
  drawn : nat;                       (* blocks read so far *)
  refuse : syscall → string → option refusal;
  mapstart : list (string * string) → nat   (* where a range over a map starts *)
}.

Definition set_running (w : World) (r : gmap string string) : World :=
  mkWorld r (environ w) (fs w) (entropy w) (drawn w) (refuse w) (mapstart w).
Definition set_environ (w : World) (e : gmap string string) : World :=
  mkWorld (running w) e (fs w) (entropy w) (drawn w) (refuse w) (mapstart w).
Definition set_fs (w : World) (f : gmap string node) : World :=
  mkWorld (running w) (environ w) f (entropy w) (drawn w) (refuse w) (mapstart w).
Definition set_drawn (w : World) (n : nat) : World :=
  mkWorld (running w) (environ w) (fs w) (entropy w) n (refuse w) (mapstart w).

Module os.

(** [os.Getenv]: the empty string when the variable is unset. *)
Definition Getenv (w : World) (key : string) : string :=
  default "" (environ w !! key).

(** [os.Setenv]: EINVAL for an empty key, a key with [=] or NUL, or a value
    with NUL; otherwise the variable is set. *)
Definition Setenv (w : World) (key value : string) : option error * World :=
  if decide (key = "") then (Some (OSError EINVAL), w)
  else if contains_byte "="%char key || contains_byte NUL key
  then (Some (OSError EINVAL), w)
  else if contains_byte NUL value then (Some (OSError EINVAL), w)
  else (None, set_environ w (<[key := value]> (environ w))).

(** [os.TempDir]: $TMPDIR, or /tmp when that is empty. *)
Definition TempDir (w : World) : string :=
  let dir := Getenv w "TMPDIR" in
  if decide (dir = "") then "/tmp" else dir.

(** Path resolution up to the last element: every proper ancestor must be a
    directory.  The root is one. *)
Fixpoint walk (f : gmap string node) (dirs : list string) : option errno :=
  match dirs with
  | [] => None
  | d :: rest =>
      match f !! d with
      | None => Some ENOENT
      | Some (File _) => Some ENOTDIR
      | Some Dir => walk f rest
      end
  end.

Definition resolve (f : gmap string node) (p : string) : errno + node :=
  match walk f (path.ancestors p) with
  | Some e => inl e
  | None =>
      if decide (p = "/") then inr Dir
      else match f !! p with
           | Some n => inr n
           | None => inl ENOENT
           end
  end.

Definition exists_at (f : gmap string node) (p : string) : bool :=
  match resolve f p with inr _ => true | inl _ => false end.

(** What a system call answers before it looks at the tree: Go hands no
    path with a NUL byte to the kernel and returns [EINVAL] for it, and the
    system may refuse any other. *)
Definition denied (w : World) (sc : syscall) (p : string) : option errno :=
  if contains_byte NUL p then Some EINVAL
  else match refuse w sc p with
       | Some r => Some (Refused r)
       | None => None
       end.

(** [os.Stat], keeping only the error. *)
Definition Stat (w : World) (p : string) : option error :=
  match denied w SysStat p with
  | Some e => Some (OSError e)
  | None =>
      match resolve (fs w) p with
      | inl e => Some (OSError e)
      | inr _ => None
      end
  end.

(** [os.IsNotExist] *)
Definition IsNotExist (err : option error) : bool :=
  match err with
  | Some (OSError ENOENT) => true
  | _ => false
  end.

(** [os.MkdirAll]: creates the missing directories from the outermost one on,
    and stops at an element that is a file or that has a NUL byte. *)
Fixpoint mkdirs (f : gmap string node) (dirs : list string)
  : option errno * gmap string node :=
  match dirs with
  | [] => (None, f)
  | d :: rest =>
      if contains_byte NUL d then (Some EINVAL, f)
      else match f !! d with
           | None => mkdirs (<[d := Dir]> f) rest
           | Some Dir => mkdirs f rest
           | Some (File _) => (Some ENOTDIR, f)
           end
  end.

Definition MkdirAll (w : World) (p : string) : option error * World :=
  match (if contains_byte NUL p then None else refuse w SysMkdir p) with
  | Some r => (Some (OSError (Refused r)), w)
  | None =>
      match mkdirs (fs w) (path.ancestors p ++ [p]) with
      | (Some e, f) => (Some (OSError e), set_fs w f)
      | (None, f) => (None, set_fs w f)
      end
  end.

(** [os.OpenFile(p, O_WRONLY|O_CREAT|O_TRUNC, perm)]: the file is created or
    emptied; the handle is its path. *)
Definition OpenFile (w : World) (p : string) : error + string * World :=
  match denied w SysOpen p with
  | Some e => inl (OSError e)
  | None =>
      match walk (fs w) (path.ancestors p) with
      | Some e => inl (OSError e)
      | None =>
          if decide (p = "/") then inl (OSError EISDIR)
          else match fs w !! p with
               | Some Dir => inl (OSError EISDIR)
               | _ => inr (p, set_fs w (<[p := File ""]> (fs w)))
               end
      end
  end.

(** Writing to a handle from [OpenFile] (the [Write] method of [os.File]). *)
Definition Write (w : World) (f : string) (data : string) : option error * World :=
  match refuse w SysWrite f with
  | Some r => (Some (OSError (Refused r)), w)
  | None =>
      match fs w !! f with
      | Some (File old) => (None, set_fs w (<[f := File (old +:+ data)]> (fs w)))
      | _ => (Some (OSError EINVAL), w)
      end
  end.

(** [os.Open] followed by reading the whole file. *)
Definition ReadFile (w : World) (p : string) : error + string :=
  match denied w SysOpen p with
  | Some e => inl (OSError e)
  | None =>
      match resolve (fs w) p with
      | inl e => inl (OSError e)
      | inr Dir => inl (OSError EISDIR)
      | inr (File data) => inr data
      end
  end.

(** [endsWithDot] of package os: the path is [.] or its last element is. *)
Definition endsWithDot (p : string) : bool :=
  bool_decide (p = ".") || HasSuffix p "/.".

(** The paths at or below [p]; [p] is a clean path, which ends in a slash
    only when it is the root. *)
Definition below (p q : string) : bool :=
  bool_decide (q = p)
  || HasPrefix q (if decide (p = "/") then "/" else p +:+ "/").

(** [os.RemoveAll].  The empty path is left alone without an error and a
    path that ends in a dot element gives [EINVAL].  Any other path names
    what its clean form names: the kernel reads doubled and trailing slashes
    and [.] elements that way, and a [..] element inside the path too when
    the element before it is a directory (for a path that ends in [..] this
    is an approximation).  That entry goes with everything below it.
    Nothing there is no error; a file on the way to it is [ENOTDIR]. *)
Definition RemoveAll (w : World) (p : string) : option error * World :=
  if decide (p = "") then (None, w)
  else if endsWithDot p then (Some (OSError EINVAL), w)
  else
    match denied w SysRemove p with
    | Some e => (Some (OSError e), w)
    | None =>
        let q := path.Clean p in
        match walk (fs w) (path.ancestors q) with
        | Some ENOENT => (None, w)
        | Some e => (Some (OSError e), w)
        | None => (None, set_fs w (filter (λ kv, below q kv.1 = false) (fs w)))
        end
    end.

End os.

(** ** text/template, as far as [source] uses it: text and [{{.field}}] *)

Inductive tnode := TText (s : string) | TField (name : string).

Inductive value := VString (s : string) | VInt (n : Z).

Module template.

Definition field_of_action (action : string) : option string :=
  match action with
  | String "." name =>
      if decide (name = "") then None
      else if contains_byte " "%char name || contains_byte "."%char name then None
      else Some name
  | _ => None
  end.

Fixpoint parse (fuel : nat) (text : string) : error + list tnode :=
  match fuel with
  | O => inl (TemplateError "template too deep")
  | S fuel' =>
      match index_of "{{" text with
      | None => inr (if decide (text = "") then [] else [TText text])
      | Some i =>
          let after := drop (i + 2) text in
          match index_of "}}" after with
          | None => inl (TemplateError "unclosed action")
          | Some j =>
              match field_of_action (take j after) with
              | None => inl (TemplateError "unexpected action")
              | Some name =>
                  match parse fuel' (drop (j + 2) after) with
                  | inl e => inl e
                  | inr nodes =>
                      inr ((if decide (i = O) then [] else [TText (take i text)])
                             ++ TField name :: nodes)
                  end
              end
          end
      end
  end.

(** [template.New(name).Parse(text)] *)
Definition Parse (name text : string) : error + list tnode :=
  parse (S (String.length text)) text.

(** How a value of the parameter map prints. *)
Definition print (v : option value) : string :=
  match v with
  | Some (VString s) => s
  | Some (VInt n) => NilZero.string_of_int (Z.to_int n)
  | None => "<no value>"
  end.

(** [t.Execute(f, param)]: one write per node, stopping at the first error. *)
Fixpoint Execute (t : list tnode) (f : string) (param : gmap string value)
  (w : World) : option error * World :=
  match t with
  | [] => (None, w)
  | n :: rest =>
      let text := match n with
                  | TText s => s
                  | TField name => print (param !! name)
                  end in
      match os.Write w f text with
      | (Some e, w') => (Some e, w')
      | (None, w') => Execute rest f param w'
      end
  end.

End template.

(** ** mocker.go *)

Definition TAB : string := String "009"%char EmptyString.

(** [var source]: the script, a template in [output], [erroutput], [status]. *)
Definition source : string :=
  join nl [
    "#!/bin/bash -e";
    "";
    "echo=$(which echo)";
    "output=$(cat <<EOF";
    "{{.output}}";
    "EOF";
    ")";
    "erroutput=$(cat <<EOF";
    "{{.erroutput}}";
    "EOF";
    ")";
    "dirname=$(dirname ${0})";
    "";
    "$echo -n " +:+ dq +:+ "${output}" +:+ dq +:+ " | tee -a ${dirname}/.out";
    "$echo -n " +:+ dq +:+ "${erroutput}" +:+ dq +:+ " >&2 | tee -a ${dirname}/.err";
    "";
    "for i in " +:+ dq +:+ "$@" +:+ dq;
    "do";
    TAB +:+ "$echo -- " +:+ dq +:+ "$i" +:+ dq
        +:+ " | sed -e 's/-- //' >> ${dirname}/.params";
    "done";
    "touch ${dirname}/.ran";
    "env >> ${dirname}/.envs";
    "exit {{.status}}";
    ""
  ].

(** [rand.Read(buf[:])] with [var buf [8]byte]: the next 8 bytes, as the
    big-endian number they spell. *)
Definition rand_Read (w : World) : N * World :=
  ((entropy w (drawn w) mod 2 ^ 64)%N, set_drawn w (S (drawn w))).

Definition hexdigit (d : N) : ascii :=
  match d with
  | 0 => "0" | 1 => "1" | 2 => "2" | 3 => "3" | 4 => "4" | 5 => "5"
  | 6 => "6" | 7 => "7" | 8 => "8" | 9 => "9" | 10 => "a" | 11 => "b"
  | 12 => "c" | 13 => "d" | 14 => "e" | _ => "f"
  end%N%char.

Fixpoint hex (digits : nat) (n : N) (acc : string) : string :=
  match digits with
  | O => acc
  | S k => hex k (n / 16)%N (String (hexdigit (n mod 16)%N) acc)
  end.

(** [fmt.Sprintf("commandmocker-%x", buf)] *)
Definition tempname (buf : N) : string := "commandmocker-" +:+ hex 16 buf "".

Record add_args := mkArgs {
  name : string; stdout : string; stderr : string; status : Z
}.

(** Where a call of [add] stands.  One step is one line-range of the function
    that runs without interruption: the poll of the registry under the read
    lock, one round of the name generation under the write lock, and each
    system call after that. *)
Inductive add_pc :=
| APoll                                   (* lines 51-59 *)
| AGenerate                               (* lines 60-71 *)
| AMkdir (tempdir : string)               (* lines 72-75 *)
| AOpen (tempdir : string)                (* lines 76-80 *)
| AParse (tempdir f : string)             (* lines 81-84 *)
| AExecute (tempdir f : string) (t : list tnode)   (* lines 85-93 *)
| ASetPath (tempdir : string)             (* lines 94-98 *)
| AReturn (tempdir : string) (err : option error).

Definition add_step (a : add_args) (w : World) (pc : add_pc) : World * add_pc :=
  match pc with
  | APoll =>
      match running w !! name a with
      | Some _ => (w, APoll)               (* time.Sleep(1), and again *)
      | None => (w, AGenerate)
      end
  | AGenerate =>
      let '(buf, w1) := rand_Read w in
      let tempdir := path.Join [os.TempDir w1; tempname buf] in
      if os.IsNotExist (os.Stat w1 tempdir)
      then (set_running w1 (<[name a := tempdir]> (running w1)), AMkdir tempdir)
      else (w1, AGenerate)
  | AMkdir tempdir =>
      match os.MkdirAll w tempdir with
      | (Some err, w') => (w', AReturn "" (Some err))
      | (None, w') => (w', AOpen tempdir)
      end
  | AOpen tempdir =>
      match os.OpenFile w (path.Join [tempdir; name a]) with
      | inl err => (w, AReturn "" (Some err))
      | inr (f, w') => (w', AParse tempdir f)
      end
  | AParse tempdir f =>
      match template.Parse (name a) source with
      | inl err => (w, AReturn "" (Some err))
      | inr t => (w, AExecute tempdir f t)
      end
  | AExecute tempdir f t =>
      let param : gmap string value :=
        <["output" := VString (stdout a)]>
          (<["erroutput" := VString (stderr a)]>
             (<["status" := VInt (status a)]> ∅)) in
      match template.Execute t f param w with
      | (Some err, w') => (w', AReturn "" (Some err))
      | (None, w') => (w', ASetPath tempdir)
      end
  | ASetPath tempdir =>
      let path_ := os.Getenv w "PATH" in
      let path_ := tempdir +:+ ":" +:+ path_ in
      let '(err, w') := os.Setenv w "PATH" path_ in   (* err is not looked at *)
      (w', AReturn tempdir None)
  | AReturn tempdir err => (w, AReturn tempdir err)
  end.

(** A call run on its own, for at most [fuel] steps. *)
Fixpoint add_from (fuel : nat) (a : add_args) (w : World) (pc : add_pc)
  : option (string * option error * World) :=
  match pc with
  | AReturn tempdir err => Some (tempdir, err, w)
  | _ =>
      match fuel with
      | O => None
      | S fuel' => let '(w', pc') := add_step a w pc in add_from fuel' a w' pc'
      end
  end.

Definition add (fuel : nat) (w : World) (name stdout stderr : string) (status : Z)
  : option (string * option error * World) :=
  add_from fuel (mkArgs name stdout stderr status) w APoll.

Definition Add fuel w name output := add fuel w name output "" 0.
Definition AddStderr fuel w name stdout stderr := add fuel w name stdout stderr 0.
Definition Error fuel w name output status := add fuel w name "" output status.

(** [Ran]: whether the given tempdir contains a .ran file. *)
Definition Ran (w : World) (tempdir : string) : bool :=
  let p := path.Join [tempdir; ".ran"] in
  let err := os.Stat w p in
  bool_decide (err = None) || negb (os.IsNotExist err).

(** [Output] *)
Definition Output (w : World) (tempdir : string) : string :=
  let p := path.Join [tempdir; ".out"] in
  match os.ReadFile w p with
  | inl _ => ""
  | inr b => b
  end.

(** [Envs] *)
Definition Envs (w : World) (tempdir : string) : string :=
  let envs := path.Join [tempdir; ".envs"] in
  match os.ReadFile w envs with
  | inl _ => ""
  | inr b => b
  end.

(** bufio.Scanner with the default split function, [ScanLines]: the data is
    cut at line feeds, a last line without one counts when it is not empty, a
    trailing carriage return is dropped from each line, and scanning stops at
    the first line that does not fit the buffer of [MaxScanTokenSize] bytes
    together with its line feed. *)
Module bufio.

Definition MaxScanTokenSize : Z := 64 * 1024.

Fixpoint dropCR (line : string) : string :=
  match line with
  | EmptyString => EmptyString
  | String c EmptyString => if Ascii.eqb c CR then EmptyString else line
  | String c rest => String c (dropCR rest)
  end.

Fixpoint lines (parts : list string) : list string :=
  match parts with
  | [] => []
  | [tail] => if decide (tail = "") then [] else [tail]
  | l :: rest => l :: lines rest
  end.

Fixpoint scan (ls : list string) : list string :=
  match ls with
  | [] => []
  | l :: rest => if len l <? MaxScanTokenSize then dropCR l :: scan rest else []
  end.

Definition ScanAll (data : string) : list string :=
  scan (lines (split_on LF data)).

End bufio.

(** [Parameters]; the nil slice is the empty list. *)
Definition Parameters (w : World) (tempdir : string) : list string :=
  let p := path.Join [tempdir; ".params"] in
  match os.ReadFile w p with
  | inl _ => []
  | inr data => bufio.ScanAll data
  end.

(** How a call of [Remove] ends: it returns an error value (nil is [None]),
    or it panics. *)
Inductive outcome := Returned (err : option error) | Panicked.

(** The loop of the deferred function: the key of the last entry met whose
    value is [tempdir], the empty string when there is none. *)
Definition range_last (entries : list (string * string)) (tempdir : string)
  : string :=
  foldl (λ k kv, if decide (kv.2 = tempdir) then kv.1 else k) "" entries.

(** Go ranges over a map in an order of its own and from a start it picks
    at random: the entries come as [map_to_list] has them, turned round to
    start where [mapstart] says. *)
Definition range_order (w : World) : list (string * string) :=
  let entries := map_to_list (running w) in
  rotate (mapstart w entries) entries.

Definition Remove_deferred (w : World) (tempdir : string) : World :=
  let k := range_last (range_order w) tempdir in
  set_running w (delete k (running w)).

Definition Remove_body (w : World) (tempdir : string) : outcome * World :=
  if negb (HasPrefix tempdir (os.TempDir w))
  then (Returned (Some (InvalidTarget tempdir)), w)
  else
    let path_ := os.Getenv w "PATH" in
    let index := Index path_ tempdir in
    if index <? 0 then (Returned (Some (NotInSearchPath tempdir)), w)
    else
      match slice_to path_ index,
            slice_from path_ (index + len tempdir + 1) with
      | Some front, Some back =>
          let path_ := front +:+ back in
          match os.Setenv w "PATH" path_ with
          | (Some err, w') => (Returned (Some err), w')
          | (None, w') =>
              let '(err, w'') := os.RemoveAll w' tempdir in (Returned err, w'')
          end
      | _, _ => (Panicked, w)           (* slice bounds out of range *)
      end.

(** [Remove]: the body, then the deferred function, which also runs when the
    body panics. *)
Definition Remove (w : World) (tempdir : string) : outcome * World :=
  let '(r, w') := Remove_body w tempdir in (r, Remove_deferred w' tempdir).

(** ** One run of the generated script

    The script is run by bash in another process; its steps are modelled by
    what they do to the files next to it.  [echo] is the program found by
    [which echo], run without POSIXLY_CORRECT: it prints its arguments, [--]
    included, separated by spaces and followed by a line feed. *)
Module script.

(** [$echo -- "$i"] *)
Definition echo_dashes (arg : string) : string := "-- " +:+ arg +:+ nl.

(** [sed -e 's/-- //'] on one line: the first occurrence goes. *)
Definition sed_subst (line : string) : string :=
  match index_of "-- " line with
  | Some i => take i line +:+ drop (i + 3) line
  | None => line
  end.

Fixpoint sed_lines (parts : list string) : string :=
  match parts with
  | [] => ""
  | [tail] => if decide (tail = "") then "" else sed_subst tail
  | l :: rest => sed_subst l +:+ nl +:+ sed_lines rest
  end.

Definition sed (input : string) : string := sed_lines (split_on LF input).

(** [$echo -n "${output}"], line 31.  The echo of coreutils takes a leading
    argument as options when it is a dash followed by one or more of the
    letters [n], [e] and [E]: an output of that form is taken as options too,
    and nothing is printed.  Any other text is printed as it is. *)
Definition echo_option (arg : string) : bool :=
  match arg with
  | String "-" (String c rest) =>
      forallb (λ x, bool_decide (x ∈ ["n"; "e"; "E"]%char))
              (list_ascii_of_string (String c rest))
  | _ => false
  end.

Definition echo_n (output : string) : string :=
  if echo_option output then "" else output.

(** Lines 31 to 39 use [${dirname}] without quotes, so the shell splits it at
    blanks and expands patterns in it.  A directory name is plain when the
    shell leaves it as the one word it is: no NUL byte (no shell word has
    one), no space, tab or line feed, no [*], [?], [[] or backslash, and no
    leading dash, which [tee] and [touch] would read as options. *)
Definition special (c : ascii) : bool :=
  bool_decide (c ∈ [NUL; "009"; LF; " "; "*"; "?"; "["; "\"]%char).

Definition plain (dirname : string) : bool :=
  negb (existsb special (list_ascii_of_string dirname))
  && negb (String.prefix "-" dirname).

(** [>> file] and [tee -a file]: [None] when the file cannot be opened. *)
Definition append (f : gmap string node) (p data : string)
  : option (gmap string node) :=
  match os.walk f (path.ancestors p) with
  | Some _ => None
  | None =>
      match f !! p with
      | Some Dir => None
      | Some (File old) => Some (<[p := File (old +:+ data)]> f)
      | None => Some (<[p := File data]> f)
      end
  end.

(** [touch file]: an empty file is made when nothing is there; a file or a
    directory that is there stays as it is. *)
Definition touch (f : gmap string node) (p : string)
  : option (gmap string node) :=
  match os.walk f (path.ancestors p) with
  | Some _ => None
  | None =>
      match f !! p with
      | Some _ => Some f
      | None => Some (<[p := File ""]> f)
      end
  end.

(** The [for i in "$@"] loop, lines 34-37; [-e] ends the script at the first
    command that fails. *)
Fixpoint params_loop (f : gmap string node) (dirname : string)
  (args : list string) : gmap string node * bool :=
  match args with
  | [] => (f, true)
  | i :: rest =>
      match append f (dirname +:+ "/.params") (sed (echo_dashes i)) with
      | None => (f, false)
      | Some f' => params_loop f' dirname rest
      end
  end.

(** The whole script.  [output] is the text the here-document of line 21
    yields, [envs] what [env] prints, [dirname] the directory of the script
    as line 29 finds it; [echo], [tee], [sed], [touch] and [env] are the
    programs of coreutils, none of them mocked.  The result is the filesystem
    and the number given to [exit], or [None] when the script did not get to
    that line: [-e] ended it before, or the directory name is not plain, in
    which case the model follows the script no further. *)
Definition run (output : string) (status : Z) (envs : string)
  (dirname : string) (args : list string) (f : gmap string node)
  : gmap string node * option Z :=
  if negb (plain dirname) then (f, None)
  else
    match append f (dirname +:+ "/.out") (echo_n output) with
    | None => (f, None)
    | Some f1 =>
        (* the text of line 32 goes to stderr, tee gets nothing to append *)
        match append f1 (dirname +:+ "/.err") "" with
        | None => (f1, None)
        | Some f2 =>
            match params_loop f2 dirname args with
            | (f3, false) => (f3, None)
            | (f3, true) =>
                match touch f3 (dirname +:+ "/.ran") with
                | None => (f3, None)
                | Some f4 =>
                    match append f4 (dirname +:+ "/.envs") envs with
                    | None => (f4, None)
                    | Some f5 => (f5, Some status)
                    end
                end
            end
        end
    end.

End script.

(** ** Calls of [add] among other goroutines

    A call either takes a step of its own or stands by while the rest of the
    process changes the world in any way. *)
Inductive conc_step (a : add_args) : World * add_pc → World * add_pc → Prop :=
| conc_self w pc : conc_step a (w, pc) (add_step a w pc)
| conc_other w w' pc : conc_step a (w, pc) (w', pc).

(** [conc_run a s seen s']: from [s] to [s'], [seen] listing the worlds passed
    through, the first one included and the last one not. *)
Inductive conc_run (a : add_args)
  : World * add_pc → list World → World * add_pc → Prop :=
| conc_stop s : conc_run a s [] s
| conc_go s s' s'' seen :
    conc_step a s s' → conc_run a s' seen s'' → conc_run a s (s.1 :: seen) s''.

(** Several calls in one process, as a pool run by a schedule: each number
    of the schedule lets the call at that place take one step.  A call of
    [Remove] is one step here; it touches the registry in its deferred
    function only, under the write lock. *)
Inductive call :=
| AddCall (a : add_args) (pc : add_pc)
| RemoveCall (tempdir : string) (result : option outcome).

Definition call_step (w : World) (c : call) : World * call :=
  match c with
  | AddCall a pc => let '(w', pc') := add_step a w pc in (w', AddCall a pc')
  | RemoveCall tempdir None =>
      let '(r, w') := Remove w tempdir in (w', RemoveCall tempdir (Some r))
  | RemoveCall _ (Some _) => (w, c)
  end.

Fixpoint schedule_run (w : World) (pool : list call) (schedule : list nat)
  : World * list call :=
  match schedule with
  | [] => (w, pool)
  | i :: rest =>
      match pool !! i with
      | None => schedule_run w pool rest
      | Some c =>
          let '(w', c') := call_step w c in
          schedule_run w' (<[i := c']> pool) rest
      end
  end.

(** ** Vocabulary of the specification *)

(** The search path as the list of its colon-delimited segments. *)
Definition segments (search_path : string) : list string :=
  split_on ":" search_path.

(** [new] is [old] with one segment [dir] and one adjacent delimiter removed. *)
Definition one_segment_removed (dir old new : string) : Prop :=
  ∃ before after, segments old = before ++ dir :: after
                  ∧ new = join ":" (before ++ after).

(** A live instance of [name] in [dir]: the executable is on disk and the
    directory is a segment of the search path. *)
Definition live (w : World) (name dir : string) : bool :=
  os.exists_at (fs w) (path.Join [dir; name])
  && bool_decide (dir ∈ segments (os.Getenv w "PATH")).

(** [dir] is [root] or lies below it in the directory tree. *)
Definition located_beneath (root dir : string) : bool :=
  let r := path.Clean root in
  let d := path.Clean dir in
  bool_decide (d = r) || bool_decide (r = "/") || HasPrefix d (r +:+ "/").

(** The text of the segments [before] a given one, delimiters included. *)
Definition lead (before : list string) : string :=
  foldr (λ seg rest, seg +:+ ":" +:+ rest) "" before.

Definition nul_free (s : string) : Prop := contains_byte NUL s = false.
Definition lf_free (s : string) : Prop := contains_byte LF s = false.

(** Environment strings are C strings: no value holds a NUL byte. *)
Definition env_wf (w : World) : Prop :=
  ∀ key v, environ w !! key = Some v → nul_free v.


(** ** Worlds to evaluate the functions in *)

Definition no_refusal : syscall → string → option refusal := λ _ _, None.

Definition some_entropy : nat → N := λ n, (N.of_nat n + 255)%N.

Definition from_first : list (string * string) → nat := λ _, 0%nat.

Definition some_files : gmap string node :=
  {[ "/tmp" := Dir; "/tmp/a" := Dir; "/tmp/a/ssh" := File "#!/bin/bash -e";
     "/tmp/ab" := Dir; "/tmp-tools" := Dir; "/tmp-tools/bin" := Dir;
     "/tmp-tools/bin/cc" := File "cc"; "/etc" := Dir;
     "/etc/passwd" := File "root:x:0:0" ]}.

(** A process in which the mock of ssh lives in /tmp/a, with the given
    search path. *)
Definition world_with (search_path : string) : World :=
  mkWorld {[ "ssh" := "/tmp/a" ]} {[ "PATH" := search_path ]} some_files
          some_entropy 0 no_refusal from_first.

(** A process without mocks, whose system refuses what [refuse] says. *)
Definition fresh_world (refuse : syscall → string → option refusal) : World :=
  mkWorld ∅ {[ "PATH" := "/usr/bin:/bin" ]} {[ "/tmp" := Dir ]}
          some_entropy 0 refuse from_first.

(** A system that lets no directory be made, and one that lets no file be
    looked at. *)
Definition mkdir_refused : syscall → string → option refusal :=
  λ sc _, match sc with SysMkdir => Some EACCES | _ => None end.

Definition stat_refused : syscall → string → option refusal :=
  λ sc _, match sc with SysStat => Some EACCES | _ => None end.

(** ** Invariants of a call of [add] *)

(** From line 70 on the registry maps the name to the directory in hand (or,
    at the return, to some directory). *)
Definition registered (a : add_args) (w : World) (pc : add_pc) : Prop :=
  match pc with
  | APoll | AGenerate => True
  | AMkdir d | AOpen d | AParse d _ | AExecute d _ _ | ASetPath d =>
      running w !! name a = Some d
  | AReturn _ _ => is_Some (running w !! name a)
  end.

(** Up to line 97 the environment is the one [w0] the call started in and the
    directory in hand has no NUL byte; a call that returns no error has put
    the directory in front of the search path. *)
Definition on_track (w0 w : World) (pc : add_pc) : Prop :=
  match pc with
  | APoll | AGenerate => environ w = environ w0
  | AMkdir d | AOpen d | AParse d _ | AExecute d _ _ | ASetPath d =>
      environ w = environ w0 ∧ nul_free d
  | AReturn d None => os.Getenv w "PATH" = d +:+ ":" +:+ os.Getenv w0 "PATH"
  | AReturn _ (Some _) => True
  end.

Definition ssh_args : add_args := mkArgs "ssh" "" "HELP!" 1.

(** Two calls of add for ssh and the call of Remove for the directory of the
    live mock of ssh.  The schedule lets both calls of add poll, runs Remove,
    lets both poll again, and then runs the first and the second to their
    return. *)
Definition waiting_pool : list call :=
  [AddCall ssh_args APoll; AddCall ssh_args APoll; RemoveCall "/tmp/a" None].

Definition collision_schedule : list nat :=
  [0; 1; 2; 0; 1; 0; 0; 0; 0; 0; 0; 1; 1; 1; 1; 1; 1]%nat.

(** The parameters log of one run: one line per argument. *)
Definition log_text (args : list string) : string :=
  foldr (λ arg rest, arg +:+ nl +:+ rest) "" args.

(** What a file holds; nothing when it is not there. *)
Definition content (f : gmap string node) (p : string) : string :=
  match f !! p with
  | Some (File data) => data
  | _ => ""
  end.



(** A registry with an entry under the empty name, as a failed [add] of the
    empty name leaves it, and an environment no process has: a search path
    with a NUL byte in it. *)
Definition world_with_empty_name : World :=
  mkWorld {[ "" := "/tmp/commandmocker-00000000000000ff" ]}
          {[ "PATH" := "/usr/bin" ]} some_files some_entropy 1 no_refusal
          from_first.

Definition world_with_nul : World :=
  mkWorld ∅ {[ "PATH" := "/usr/bin" +:+ String NUL "" ]}
          {[ "/tmp" := Dir ]} some_entropy 0 no_refusal from_first.

(** ** The script that [add] writes *)

(** The text of [source] around its three fields. *)
Definition source_head : string :=
  join nl ["#!/bin/bash -e"; ""; "echo=$(which echo)"; "output=$(cat <<EOF"; ""].

Definition source_mid : string :=
  join nl [""; "EOF"; ")"; "erroutput=$(cat <<EOF"; ""].

Definition source_tail : string :=
  join nl [
    ""; "EOF"; ")";
    "dirname=$(dirname ${0})";
    "";
    "$echo -n " +:+ dq +:+ "${output}" +:+ dq +:+ " | tee -a ${dirname}/.out";
    "$echo -n " +:+ dq +:+ "${erroutput}" +:+ dq +:+ " >&2 | tee -a ${dirname}/.err";
    "";
    "for i in " +:+ dq +:+ "$@" +:+ dq;
    "do";
    TAB +:+ "$echo -- " +:+ dq +:+ "$i" +:+ dq
        +:+ " | sed -e 's/-- //' >> ${dirname}/.params";
    "done";
    "touch ${dirname}/.ran";
    "env >> ${dirname}/.envs";
    "exit "
  ].

Definition source_nodes : list tnode :=
  [TText source_head; TField "output"; TText source_mid; TField "erroutput";
   TText source_tail; TField "status"; TText nl].

(** The script for given texts and status, as it should stand in the file. *)
Definition script_text (stdout stderr : string) (status : Z) : string :=
  source_head +:+ stdout +:+ source_mid +:+ stderr +:+ source_tail
    +:+ NilZero.string_of_int (Z.to_int status) +:+ nl.

(** What the writes of [template.Execute] add up to. *)
Definition render (t : list tnode) (param : gmap string value) : string :=
  foldr (λ n rest,
           match n with
           | TText s => s
           | TField name => template.print (param !! name)
           end +:+ rest) "" t.

(** The parameter map of lines 85-89. *)
Definition add_param (a : add_args) : gmap string value :=
  <["output" := VString (stdout a)]>
    (<["erroutput" := VString (stderr a)]>
       (<["status" := VInt (status a)]> ∅)).

Fixpoint lower_hex (s : string) : bool :=
  match s with
  | EmptyString => true
  | String c rest => contains_byte c "0123456789abcdef" && lower_hex rest
  end.

(** ** What a call of [add] has done to registry and disk *)

(** The call started in [w0] with the name free, has drawn the directory [d],
    found no such path on disk and put it in the registry. *)
Definition born (a : add_args) (w0 w : World) (d : string) : Prop :=
  running w0 !! name a = None
  ∧ running w = <[name a := d]> (running w0)
  ∧ (∃ buf, (buf < 2 ^ 64)%N ∧ d = path.Join [os.TempDir w0; tempname buf])
  ∧ os.IsNotExist (os.Stat w0 d) = true.

Definition add_files (a : add_args) (w0 w : World) (pc : add_pc) : Prop :=
  refuse w = refuse w0 ∧ entropy w = entropy w0
  ∧ (∀ key, key ≠ "PATH" → environ w !! key = environ w0 !! key)
  ∧ match pc with
    | APoll => running w = running w0 ∧ environ w = environ w0 ∧ fs w = fs w0
    | AGenerate =>
        running w0 !! name a = None ∧ running w = running w0
        ∧ environ w = environ w0 ∧ fs w = fs w0
    | AMkdir d => born a w0 w d ∧ environ w = environ w0 ∧ fs w = fs w0
    | AOpen d =>
        born a w0 w d ∧ environ w = environ w0 ∧ fs w !! d = Some Dir
    | AParse d f =>
        born a w0 w d ∧ environ w = environ w0 ∧ fs w !! d = Some Dir
        ∧ f = path.Join [d; name a] ∧ fs w !! f = Some (File "")
    | AExecute d f t =>
        born a w0 w d ∧ environ w = environ w0 ∧ fs w !! d = Some Dir
        ∧ f = path.Join [d; name a] ∧ fs w !! f = Some (File "")
        ∧ t = source_nodes
    | ASetPath d =>
        born a w0 w d ∧ environ w = environ w0 ∧ fs w !! d = Some Dir
        ∧ fs w !! path.Join [d; name a]
          = Some (File (script_text (stdout a) (stderr a) (status a)))
    | AReturn d None =>
        born a w0 w d ∧ fs w !! d = Some Dir
        ∧ fs w !! path.Join [d; name a]
          = Some (File (script_text (stdout a) (stderr a) (status a)))
    | AReturn d (Some e) =>
        d = "" ∧ environ w = environ w0 ∧ (∃ en, e = OSError en)
        ∧ ∃ d', born a w0 w d'
    end.

(** The log files of an instance directory. *)
Definition logs : list string := [".out"; ".err"; ".params"; ".ran"; ".envs"].

(** The world after [Error("ssh", "HELP!", 1)] in a process without mocks. *)
Definition world_after_add : World :=
  Eval vm_compute in
    match add 8 (fresh_world no_refusal) "ssh" "" "HELP!" 1 with
    | Some (_, _, w') => w'
    | None => fresh_world no_refusal
    end.

(** A path element that stays in a clean path as it is. *)
Definition regular (e : string) : Prop :=
  e ≠ "" ∧ e ≠ "." ∧ e ≠ ".." ∧ contains_byte "/" e = false.

(** The elements a clean path is made of: [k] times [..], none when the path
    is rooted, and regular elements after them. *)
Definition clean_shape (rooted : bool) (k : nat) (names : list string) : Prop :=
  Forall regular names ∧ (rooted = true → k = 0%nat).

(** A disk on which every entry lies in directories. *)
Definition fs_wf (f : gmap string node) : Prop :=
  ∀ p n, f !! p = Some n → os.walk f (path.ancestors p) = None.

(** What a call of [add] that started in [w0] has done to the disk: from
    line 75 on the directory in hand has no NUL byte in its name, it and its
    ancestors are directories, and no other path but the script's has
    changed. *)
Definition add_disk (a : add_args) (w0 w : World) (pc : add_pc) : Prop :=
  match pc with
  | APoll | AGenerate | AMkdir _ => fs w = fs w0
  | AOpen d | AParse d _ | AExecute d _ _ | ASetPath d | AReturn d None =>
      nul_free d
      ∧ (∀ x, x ∈ path.ancestors d ++ [d] → fs w !! x = Some Dir)
      ∧ (∀ p, p ≠ path.Join [d; name a] → p ∉ path.ancestors d ++ [d] →
              fs w !! p = fs w0 !! p)
  | AReturn _ (Some _) => True
  end.

(** The world after the same call where the system lets no directory be
    made. *)
Definition world_after_refused_add : World :=
  Eval vm_compute in
    match add 3 (fresh_world mkdir_refused) "ssh" "" "HELP!" 1 with
    | Some (_, _, w') => w'
    | None => fresh_world mkdir_refused
    end.

(** A process without mocks whose TMPDIR is not a clean path, and the world
    after [Error("ssh", "HELP!", 1)] in it. *)
Definition world_unclean_tmpdir : World :=
  mkWorld ∅ {[ "PATH" := "/usr/bin:/bin"; "TMPDIR" := "/tmp/./" ]}
          {[ "/tmp" := Dir ]} some_entropy 0 no_refusal from_first.

Definition world_after_add_unclean : World :=
  Eval vm_compute in
    match add 8 world_unclean_tmpdir "ssh" "" "HELP!" 1 with
    | Some (_, _, w') => w'
    | None => world_unclean_tmpdir
    end.

(** * Properties *)

#[local] Arguments String.append !_ _ / : simpl nomatch.

(** ** Evaluations *)

Example Clean_examples :
  path.Clean "/tmp//x/./y/../z/" = "/tmp/x/z" ∧ path.Clean "a/../../b" = "../b"
  ∧ path.Clean "/../etc" = "/etc" ∧ path.Clean "/" = "/" ∧ path.Clean "./" = ".".
Proof. repeat split; reflexivity. Qed.

Example Join_examples :
  path.Join ["/tmp"; "commandmocker-00"] = "/tmp/commandmocker-00"
  ∧ path.Join ["/tmp/"; ".ran"] = "/tmp/.ran" ∧ path.Join ["/tmp/d"; ""] = "/tmp/d"
  ∧ path.Join [""; ""] = "".
Proof. repeat split; reflexivity. Qed.

Example ancestors_example :
  path.ancestors "/tmp/d/.ran" = ["/tmp"; "/tmp/d"] ∧ path.ancestors "/tmp" = [].
Proof. split; reflexivity. Qed.

Example tempname_example : tempname 255 = "commandmocker-00000000000000ff".
Proof. reflexivity. Qed.

(** The template of the script has three fields and parses. *)
Example source_parses name :
  ∃ before_output before_erroutput before_status,
    template.Parse name source
    = inr [TText before_output; TField "output"; TText before_erroutput;
           TField "erroutput"; TText before_status; TField "status"; TText nl].
Proof. do 3 eexists. vm_compute. reflexivity. Qed.

(** The example of example_test.go: the mock of ssh fails with status 1 and
    is run with three arguments. *)
Example ExampleAdd :
  script.sed (script.echo_dashes "-l") = "-l" +:+ nl
  ∧ bufio.ScanAll (log_text ["-l"; "root"; "127.0.0.1"]) = ["-l"; "root"; "127.0.0.1"]
  ∧ (script.run "" 1 "" "/tmp/a" ["-l"; "root"; "127.0.0.1"]
       (fs (world_with "/tmp/a:/usr/bin"))).2 = Some 1
  ∧ Ran (world_with "/tmp/a:/usr/bin") "/tmp/a" = false
  ∧ Ran (set_fs (world_with "/tmp/a:/usr/bin")
           (script.run "" 1 "" "/tmp/a" ["-l"; "root"; "127.0.0.1"]
              (fs (world_with "/tmp/a:/usr/bin"))).1) "/tmp/a" = true.
Proof. repeat split; reflexivity. Qed.

(** Undoing an [add]: the directory leaves the front of the search path, the
    disk and the registry. *)
Example Remove_front :
  (Remove (world_with "/tmp/a:/usr/bin") "/tmp/a").1 = Returned None
  ∧ os.Getenv (Remove (world_with "/tmp/a:/usr/bin") "/tmp/a").2 "PATH" = "/usr/bin"
  ∧ fs (Remove (world_with "/tmp/a:/usr/bin") "/tmp/a").2 !! "/tmp/a/ssh" = None
  ∧ running (Remove (world_with "/tmp/a:/usr/bin") "/tmp/a").2 !! "ssh" = None.
Proof. repeat split; reflexivity. Qed.

(** The directory as the last segment, with no colon after it: the slice
    [path[index+len(tempdir)+1:]] starts one byte past the end and the call
    panics, the search path and the disk as they were and the registry entry
    gone. *)
Example Remove_last_segment_panics :
  (Remove (world_with "/usr/bin:/tmp/a") "/tmp/a").1 = Panicked
  ∧ os.Getenv (Remove (world_with "/usr/bin:/tmp/a") "/tmp/a").2 "PATH"
    = "/usr/bin:/tmp/a"
  ∧ fs (Remove (world_with "/usr/bin:/tmp/a") "/tmp/a").2 = some_files
  ∧ running (Remove (world_with "/usr/bin:/tmp/a") "/tmp/a").2 !! "ssh" = None.
Proof. repeat split; reflexivity. Qed.

(** The empty name is no file name: the script cannot be created, and the
    entry stays. *)
Example add_empty_name :
  fst <$> add 4 (fresh_world no_refusal) "" "" "" 0
  = Some ("", Some (OSError EISDIR))
  ∧ (running <$> (snd <$> add 4 (fresh_world no_refusal) "" "" "" 0))
    = Some {[ "" := "/tmp/commandmocker-00000000000000ff" ]}.
Proof. split; reflexivity. Qed.

(** When no entry has the directory as its value, the key the deferred
    function deletes is the empty string. *)
Example Remove_unmatched_deletes_empty_name :
  (Remove world_with_empty_name "/etc").1 = Returned (Some (InvalidTarget "/etc"))
  ∧ running (Remove world_with_empty_name "/etc").2 = ∅.
Proof. split; reflexivity. Qed.

(** A name with a NUL byte is no file name either: [os.OpenFile] returns
    EINVAL, and the entry stays. *)
Example add_nul_name :
  fst <$> add 4 (fresh_world no_refusal) (String "a" (String NUL "b")) "" "" 0
  = Some ("", Some (OSError EINVAL))
  ∧ (running <$> (snd <$> add 4 (fresh_world no_refusal)
                            (String "a" (String NUL "b")) "" "" 0))
    = Some {[ String "a" (String NUL "b")
              := "/tmp/commandmocker-00000000000000ff" ]}.
Proof. split; reflexivity. Qed.

(** [add] does not look at the error of [os.Setenv]: where Setenv fails, the
    call returns no error and the search path is as before. *)
Example add_drops_Setenv_error :
  fst <$> add 8 world_with_nul "ssh" "" "" 0
  = Some ("/tmp/commandmocker-00000000000000ff", None)
  ∧ (λ r, os.Getenv r.2 "PATH") <$> add 8 world_with_nul "ssh" "" "" 0
    = Some ("/usr/bin" +:+ String NUL "").
Proof. split; reflexivity. Qed.

(** Two calls of add for one name that both poll before either registers
    both go on, with nothing registered before. *)
Example two_calls_collide :
  (schedule_run (fresh_world no_refusal)
     [AddCall ssh_args APoll; AddCall ssh_args APoll]
     [0; 1; 0; 0; 0; 0; 0; 0; 1; 1; 1; 1; 1; 1]%nat).2
  = [AddCall ssh_args (AReturn "/tmp/commandmocker-00000000000000ff" None);
     AddCall ssh_args (AReturn "/tmp/commandmocker-0000000000000100" None)].
Proof. reflexivity. Qed.

(** ** Strings *)

Section StringFacts.

Implicit Types a b c s sub : string.

Lemma append_nil_r s : s +:+ "" = s.
Proof. induction s as [|x s IH]; simpl; [done | by rewrite IH]. Qed.

Lemma append_assoc a b c : (a +:+ b) +:+ c = a +:+ b +:+ c.
Proof. induction a as [|x a IH]; simpl; [done | by rewrite IH]. Qed.

Lemma length_append a b :
  String.length (a +:+ b) = (String.length a + String.length b)%nat.
Proof. induction a as [|x a IH]; simpl; [done | by rewrite IH]. Qed.

Lemma append_inj_l a b c : a +:+ b = a +:+ c → b = c.
Proof. induction a as [|x a IH]; simpl; [done | intros [= H]; auto]. Qed.

Lemma take_append a b : take (String.length a) (a +:+ b) = a.
Proof. induction a as [|x a IH]; simpl; [by destruct b | by rewrite IH]. Qed.

Lemma drop_append a b : drop (String.length a) (a +:+ b) = b.
Proof. induction a as [|x a IH]; [done | exact IH]. Qed.

Lemma take_drop n s : take n s +:+ drop n s = s.
Proof.
  revert s; induction n as [|n IH]; intros [|x s]; simpl; try done.
  by rewrite IH.
Qed.

Lemma prefix_append a b : String.prefix a (a +:+ b) = true.
Proof.
  induction a as [|x a IH]; simpl; [by destruct b |].
  destruct (ascii_dec x x); [done | congruence].
Qed.

Lemma prefix_split a s : String.prefix a s = true → ∃ b, s = a +:+ b.
Proof.
  revert s; induction a as [|x a IH]; intros s H.
  - by exists s.
  - destruct s as [|y s]; simpl in H; [done |].
    destruct (ascii_dec x y) as [->|]; [| done].
    destruct (IH _ H) as [b ->]. by exists b.
Qed.

Lemma index_of_eq sub s :
  index_of sub s =
  if String.prefix sub s then Some O
  else match s with
       | EmptyString => None
       | String _ s' => option_map S (index_of sub s')
       end.
Proof. by destruct s. Qed.

(** [index_of] finds an occurrence ... *)
Lemma index_of_Some sub s n :
  index_of sub s = Some n →
  ∃ pre post, s = pre +:+ sub +:+ post ∧ String.length pre = n.
Proof.
  revert n; induction s as [|x s IH]; intros n; rewrite index_of_eq;
    destruct (String.prefix sub _) eqn:E; try done.
  - intros [= <-]. destruct (prefix_split _ _ E) as [b Hb].
    exists "", b. split; [exact Hb | done].
  - intros [= <-]. destruct (prefix_split _ _ E) as [b Hb].
    exists "", b. split; [exact Hb | done].
  - destruct (index_of sub s) as [m|]; simpl; [| done].
    intros [= <-]. destruct (IH m eq_refl) as (pre & post & -> & Hl).
    exists (String x pre), post. simpl. by rewrite Hl.
Qed.

(** ... and misses none. *)
Lemma index_of_None sub s pre post :
  index_of sub s = None → s ≠ pre +:+ sub +:+ post.
Proof.
  revert s; induction pre as [|x pre IH]; intros s H ->;
    rewrite index_of_eq in H.
  - change ("" +:+ sub +:+ post) with (sub +:+ post) in H.
    by rewrite prefix_append in H.
  - destruct (String.prefix sub _); [done |]. simpl in H.
    destruct (index_of sub (pre +:+ sub +:+ post)) eqn:E; [done |].
    by eapply IH.
Qed.

End StringFacts.

(** ** Splitting and joining *)

Lemma split_on_nonempty c s : split_on c s ≠ [].
Proof. destruct s as [|a s]; simpl; [done |]. by repeat case_match. Qed.

Lemma join_cons_String c a x xs :
  join (String c "") (String a x :: xs) = String a (join (String c "") (x :: xs)).
Proof. by destruct xs. Qed.

Lemma join_split c s : join (String c "") (split_on c s) = s.
Proof.
  induction s as [|a s IH]; [done |]. simpl.
  destruct (Ascii.eqb_spec a c) as [->|Hne].
  - destruct (split_on c s) as [|x xs] eqn:E; [by apply split_on_nonempty in E |].
    change (join (String c "") ("" :: x :: xs))
      with (String c (join (String c "") (x :: xs))).
    by rewrite IH.
  - destruct (split_on c s) as [|x xs] eqn:E; [by apply split_on_nonempty in E |].
    by rewrite join_cons_String, IH.
Qed.

Lemma join_lead before seg rest :
  join ":" (before ++ seg :: rest) = lead before +:+ join ":" (seg :: rest).
Proof.
  induction before as [|b before IH]; [done |].
  change ((b :: before) ++ seg :: rest) with (b :: (before ++ seg :: rest)).
  destruct (before ++ seg :: rest) as [|y ys] eqn:E; [by destruct before |].
  change (join ":" (b :: y :: ys)) with (b +:+ ":" +:+ join ":" (y :: ys)).
  rewrite IH. change (lead (b :: before)) with (b +:+ ":" +:+ lead before).
  by rewrite !append_assoc.
Qed.

(** ** [Remove] *)

Lemma Setenv_PATH w v :
  os.Setenv w "PATH" v =
  if contains_byte NUL v then (Some (OSError EINVAL), w)
  else (None, set_environ w (<["PATH" := v]> (environ w))).
Proof. reflexivity. Qed.

Lemma len_nonneg s : 0 <= len s.
Proof. unfold len. lia. Qed.

Lemma slice_to_append a b : slice_to (a +:+ b) (len a) = Some a.
Proof.
  unfold slice_to, len. rewrite length_append.
  rewrite (proj2 (Z.leb_le _ _)), (proj2 (Z.leb_le _ _)) by lia.
  simpl. by rewrite Nat2Z.id, take_append.
Qed.

Lemma slice_from_append a b : slice_from (a +:+ b) (len a) = Some b.
Proof.
  unfold slice_from, len. rewrite length_append.
  rewrite (proj2 (Z.leb_le _ _)), (proj2 (Z.leb_le _ _)) by lia.
  simpl. by rewrite Nat2Z.id, drop_append.
Qed.

(** What the body does once [tempdir] is found at offset [len pre]: the
    directory goes, and the one byte after it. *)
Lemma Remove_body_found w tempdir pre c post :
  HasPrefix tempdir (os.TempDir w) = true →
  os.Getenv w "PATH" = pre +:+ tempdir +:+ String c post →
  Index (os.Getenv w "PATH") tempdir = len pre →
  Remove_body w tempdir =
  match os.Setenv w "PATH" (pre +:+ post) with
  | (Some err, w') => (Returned (Some err), w')
  | (None, w') => let '(err, w'') := os.RemoveAll w' tempdir in (Returned err, w'')
  end.
Proof.
  intros Htmp Hpath Hidx. unfold Remove_body. rewrite Htmp, Hidx. simpl negb. cbv iota.
  rewrite (proj2 (Z.ltb_ge _ _)) by apply len_nonneg.
  rewrite Hpath at 1. rewrite slice_to_append.
  replace (len pre + len tempdir + 1) with (len (pre +:+ tempdir +:+ String c ""))
    by (unfold len; rewrite !length_append; simpl; lia).
  replace (os.Getenv w "PATH") with ((pre +:+ tempdir +:+ String c "") +:+ post)
    by (rewrite Hpath, !append_assoc; done).
  by rewrite slice_from_append.
Qed.

Lemma RemoveAll_same w p :
  running (os.RemoveAll w p).2 = running w
  ∧ environ (os.RemoveAll w p).2 = environ w.
Proof. unfold os.RemoveAll. by repeat case_match. Qed.

Lemma Remove_body_running w tempdir :
  running (Remove_body w tempdir).2 = running w.
Proof.
  unfold Remove_body. destruct (negb _); [done |]. cbv zeta.
  destruct (_ <? 0); [done |].
  destruct (slice_to _ _); [| done]. destruct (slice_from _ _); [| done].
  rewrite Setenv_PATH. destruct (contains_byte NUL _); [done |].
  pose proof (RemoveAll_same
                (set_environ w (<["PATH" := s +:+ s0]> (environ w))) tempdir)
    as [Hr _].
  by destruct (os.RemoveAll _ tempdir).
Qed.

(** The loop of the deferred function finds an entry for [tempdir] whenever
    there is one, in whatever order the entries come. *)
Lemma range_last_spec entries tempdir k0 :
  let f := λ (k : string) (kv : string * string),
             if decide (kv.2 = tempdir) then kv.1 else k in
  (foldl f k0 entries, tempdir) ∈ entries
  ∨ (foldl f k0 entries = k0 ∧ ∀ k, (k, tempdir) ∉ entries).
Proof.
  intros f. revert k0. induction entries as [|[k v] l IH]; intros k0; simpl.
  - right. split; [done |]. intros k. apply not_elem_of_nil.
  - destruct (IH (f k0 (k, v))) as [Hin | [Heq Hnone]].
    + left. apply elem_of_cons. by right.
    + rewrite Heq. unfold f; simpl. destruct (decide (v = tempdir)) as [->|Hne].
      * left. apply elem_of_cons. by left.
      * right. split; [done |]. intros k' [[= -> ->] | Hin]%elem_of_cons; [done |].
        by apply (Hnone k').
Qed.

Lemma Remove_deferred_entry w tempdir name :
  running w !! name = Some tempdir →
  ∃ k, running w !! k = Some tempdir
       ∧ running (Remove_deferred w tempdir) = delete k (running w).
Proof.
  intros Hname. unfold Remove_deferred, range_last.
  destruct (range_last_spec (range_order w) tempdir "") as [Hin | [_ Hnone]].
  - apply elem_of_rotate, elem_of_map_to_list in Hin. eauto.
  - exfalso. apply (Hnone name). by apply elem_of_rotate, elem_of_map_to_list.
Qed.

Lemma Remove_PATH_segments w tempdir before next after :
  segments (os.Getenv w "PATH") = before ++ tempdir :: next :: after →
  os.Getenv w "PATH"
  = lead before +:+ tempdir +:+ String ":" (join ":" (next :: after)).
Proof.
  intros Hseg. rewrite <- (join_split ":" (os.Getenv w "PATH")).
  unfold segments in Hseg. rewrite Hseg. by rewrite join_lead.
Qed.

(** What the code keeps of C3: when the first occurrence of the directory
    in the search path is a complete segment followed by a delimiter (at the
    front or in the middle), a successful Remove leaves the search path with
    exactly that segment and its delimiter taken out. *)
Lemma Remove_takes_segment w tempdir before next after w' :
  segments (os.Getenv w "PATH") = before ++ tempdir :: next :: after →
  Index (os.Getenv w "PATH") tempdir = len (lead before) →
  Remove w tempdir = (Returned None, w') →
  os.Getenv w' "PATH" = join ":" (before ++ next :: after)
  ∧ one_segment_removed tempdir (os.Getenv w "PATH") (os.Getenv w' "PATH").
Proof.
  intros Hseg Hidx Hrm.
  assert (os.Getenv w' "PATH" = join ":" (before ++ next :: after)) as Hnew.
  { pose proof (Remove_PATH_segments _ _ _ _ _ Hseg) as Hpath.
    unfold Remove in Hrm. destruct (HasPrefix tempdir (os.TempDir w)) eqn:Htmp.
    - rewrite (Remove_body_found _ _ _ _ _ Htmp Hpath Hidx), Setenv_PATH in Hrm.
      destruct (contains_byte NUL _); [done |].
      set (w1 := set_environ w _) in Hrm.
      pose proof (RemoveAll_same w1 tempdir) as [_ He].
      destruct (os.RemoveAll w1 tempdir) as [e w2]. injection Hrm as _ <-.
      unfold os.Getenv. simpl in *. rewrite He.
      rewrite lookup_insert_eq; simpl. by rewrite join_lead.
    - unfold Remove_body in Hrm. by rewrite Htmp in Hrm. }
  split; [done |]. exists before, (next :: after). by rewrite Hnew.
Qed.

Lemma Remove_takes_segment_witness :
  segments (os.Getenv (world_with "/tmp/b:/tmp/a:/usr/bin") "PATH")
    = ["/tmp/b"] ++ "/tmp/a" :: "/usr/bin" :: []
  ∧ Index (os.Getenv (world_with "/tmp/b:/tmp/a:/usr/bin") "PATH") "/tmp/a"
    = len (lead ["/tmp/b"])
  ∧ (Remove (world_with "/tmp/b:/tmp/a:/usr/bin") "/tmp/a").1 = Returned None
  ∧ os.Getenv (Remove (world_with "/tmp/b:/tmp/a:/usr/bin") "/tmp/a").2 "PATH"
    = "/tmp/b:/usr/bin".
Proof.
  split; [reflexivity |]. split; [reflexivity |]. split; [reflexivity |].
  apply (Remove_takes_segment (world_with "/tmp/b:/tmp/a:/usr/bin") "/tmp/a"
           ["/tmp/b"] "/usr/bin" []); [reflexivity | reflexivity |].
  apply injective_projections; reflexivity.
Defined.

(** C3 at two failing inputs.  In the search path /tmp/ab:/tmp/a the
    directory /tmp/a is the last segment; Remove finds it inside the first
    segment, returns no error and leaves :/tmp/a, so the segment /tmp/ab is
    gone and /tmp/a is still there.  In /usr/bin:/tmp/a, where the segment is
    the first occurrence, Remove panics and the search path stays. *)
Theorem C3_segment_left_behind :
  (segments (os.Getenv (world_with "/tmp/ab:/tmp/a") "PATH")
   = ["/tmp/ab"; "/tmp/a"]
   ∧ (Remove (world_with "/tmp/ab:/tmp/a") "/tmp/a").1 = Returned None
   ∧ os.Getenv (Remove (world_with "/tmp/ab:/tmp/a") "/tmp/a").2 "PATH"
     = ":/tmp/a"
   ∧ ¬ one_segment_removed "/tmp/a"
         (os.Getenv (world_with "/tmp/ab:/tmp/a") "PATH")
         (os.Getenv (Remove (world_with "/tmp/ab:/tmp/a") "/tmp/a").2 "PATH"))
  ∧ (segments (os.Getenv (world_with "/usr/bin:/tmp/a") "PATH")
     = ["/usr/bin"; "/tmp/a"]
     ∧ (Remove (world_with "/usr/bin:/tmp/a") "/tmp/a").1 = Panicked
     ∧ os.Getenv (Remove (world_with "/usr/bin:/tmp/a") "/tmp/a").2 "PATH"
       = "/usr/bin:/tmp/a").
Proof.
  split; [| repeat split; reflexivity].
  split; [reflexivity |]. split; [reflexivity |]. split; [reflexivity |].
  intros (before & after & Hseg & Hnew).
  change (segments _) with ["/tmp/ab"; "/tmp/a"] in Hseg.
  change (os.Getenv _ "PATH") with ":/tmp/a" in Hnew.
  destruct before as [|b1 [|b2 [|b3 before]]]; simplify_eq/=.
Qed.

(** What the code keeps of C4: a directory with the temporary root as
    prefix that occurs nowhere in the search path, not even inside a longer
    segment, makes Remove return the not-in-search-path error, with the
    search path and the filesystem as they were. *)
Lemma Remove_not_in_search_path w tempdir :
  HasPrefix tempdir (os.TempDir w) = true →
  (∀ pre post, os.Getenv w "PATH" ≠ pre +:+ tempdir +:+ post) →
  ∃ w', Remove w tempdir = (Returned (Some (NotInSearchPath tempdir)), w')
        ∧ environ w' = environ w ∧ fs w' = fs w.
Proof.
  intros Htmp Habsent. unfold Remove, Remove_body, Index. rewrite Htmp; simpl.
  destruct (index_of tempdir (os.Getenv w "PATH")) as [n|] eqn:E.
  - destruct (index_of_Some _ _ _ E) as (pre & post & Hpath & _).
    by destruct (Habsent pre post).
  - simpl. by eexists.
Qed.

Lemma Remove_not_in_search_path_witness :
  HasPrefix "/tmp/a" (os.TempDir (world_with "/usr/bin:/bin")) = true
  ∧ (∀ pre post,
       os.Getenv (world_with "/usr/bin:/bin") "PATH" ≠ pre +:+ "/tmp/a" +:+ post)
  ∧ ∃ w', Remove (world_with "/usr/bin:/bin") "/tmp/a"
          = (Returned (Some (NotInSearchPath "/tmp/a")), w')
          ∧ environ w' = environ (world_with "/usr/bin:/bin")
          ∧ fs w' = fs (world_with "/usr/bin:/bin").
Proof.
  assert (∀ pre post,
    os.Getenv (world_with "/usr/bin:/bin") "PATH" ≠ pre +:+ "/tmp/a" +:+ post)
    as Habsent by (intros pre post; by apply index_of_None).
  split; [reflexivity |]. split; [exact Habsent |].
  exact (Remove_not_in_search_path (world_with "/usr/bin:/bin") "/tmp/a"
           eq_refl Habsent).
Defined.

(** C4 at a failing input: /tmp/a lies beneath /tmp and is no segment of
    the search path /tmp/ab:/usr/bin, only a part of the segment /tmp/ab, and
    yet Remove returns no error, cuts the search path down to :/usr/bin and
    deletes the directory. *)
Theorem C4_found_inside_segment :
  HasPrefix "/tmp/a" (os.TempDir (world_with "/tmp/ab:/usr/bin")) = true
  ∧ located_beneath (os.TempDir (world_with "/tmp/ab:/usr/bin")) "/tmp/a" = true
  ∧ ("/tmp/a" ∉ segments (os.Getenv (world_with "/tmp/ab:/usr/bin") "PATH"))
  ∧ (Remove (world_with "/tmp/ab:/usr/bin") "/tmp/a").1 = Returned None
  ∧ os.Getenv (Remove (world_with "/tmp/ab:/usr/bin") "/tmp/a").2 "PATH"
    = ":/usr/bin"
  ∧ fs (world_with "/tmp/ab:/usr/bin") !! "/tmp/a/ssh" = Some (File "#!/bin/bash -e")
  ∧ fs (Remove (world_with "/tmp/ab:/usr/bin") "/tmp/a").2 !! "/tmp/a/ssh" = None.
Proof.
  split; [reflexivity |]. split; [reflexivity |]. split.
  - change (segments _) with ["/tmp/ab"; "/usr/bin"].
    intros [? | [? | []%elem_of_nil]%elem_of_cons]%elem_of_cons; done.
  - repeat split; reflexivity.
Qed.

(** What the code keeps of C5: a directory whose name does not begin with
    the name of the temporary root makes Remove return the invalid-target
    error, with the search path and the filesystem as they were. *)
Lemma Remove_invalid_target w tempdir :
  HasPrefix tempdir (os.TempDir w) = false →
  ∃ w', Remove w tempdir = (Returned (Some (InvalidTarget tempdir)), w')
        ∧ environ w' = environ w ∧ fs w' = fs w.
Proof.
  intros Htmp. unfold Remove, Remove_body. rewrite Htmp; simpl. by eexists.
Qed.

Lemma Remove_invalid_target_witness :
  HasPrefix "/etc" (os.TempDir (world_with "/etc:/usr/bin")) = false
  ∧ ∃ w', Remove (world_with "/etc:/usr/bin") "/etc"
          = (Returned (Some (InvalidTarget "/etc")), w')
          ∧ environ w' = environ (world_with "/etc:/usr/bin")
          ∧ fs w' = fs (world_with "/etc:/usr/bin").
Proof.
  split; [reflexivity |].
  exact (Remove_invalid_target (world_with "/etc:/usr/bin") "/etc" eq_refl).
Defined.

(** C5 at a failing input: /tmp-tools/bin does not lie beneath /tmp, and
    Remove returns no error, takes it out of the search path and deletes
    it. *)
Theorem C5_outside_root_deleted :
  os.TempDir (world_with "/tmp-tools/bin:/usr/bin") = "/tmp"
  ∧ located_beneath "/tmp" "/tmp-tools/bin" = false
  ∧ (Remove (world_with "/tmp-tools/bin:/usr/bin") "/tmp-tools/bin").1
    = Returned None
  ∧ os.Getenv (Remove (world_with "/tmp-tools/bin:/usr/bin") "/tmp-tools/bin").2
      "PATH" = "/usr/bin"
  ∧ fs (world_with "/tmp-tools/bin:/usr/bin") !! "/tmp-tools/bin/cc"
    = Some (File "cc")
  ∧ fs (Remove (world_with "/tmp-tools/bin:/usr/bin") "/tmp-tools/bin").2
      !! "/tmp-tools/bin/cc" = None.
Proof. repeat split; reflexivity. Qed.

(** C6: whatever the outcome of Remove, the registry afterwards is the one
    before without an entry whose value is the directory; that is the entry
    of [name] when no other name maps to the directory. *)
Theorem C6_registry_cleanup w tempdir name :
  running w !! name = Some tempdir →
  ∃ k, running w !! k = Some tempdir
       ∧ running (Remove w tempdir).2 = delete k (running w)
       ∧ ((∀ k', running w !! k' = Some tempdir → k' = name) →
          running (Remove w tempdir).2 = delete name (running w)).
Proof.
  intros Hname. unfold Remove.
  pose proof (Remove_body_running w tempdir) as Hrun.
  destruct (Remove_body w tempdir) as [r w1]; simpl in *.
  rewrite <- Hrun in Hname.
  destruct (Remove_deferred_entry _ _ _ Hname) as (k & Hk & Hdel).
  rewrite Hrun in Hk, Hdel. exists k. split; [done |]. split; [done |].
  intros Huniq. by rewrite <- (Huniq k Hk).
Qed.

Lemma C6_registry_cleanup_witness :
  running (world_with "/usr/bin") !! "ssh" = Some "/tmp/a"
  ∧ ∃ k, running (world_with "/usr/bin") !! k = Some "/tmp/a"
       ∧ running (Remove (world_with "/usr/bin") "/tmp/a").2
         = delete k (running (world_with "/usr/bin"))
       ∧ ((∀ k', running (world_with "/usr/bin") !! k' = Some "/tmp/a"
                 → k' = "ssh") →
          running (Remove (world_with "/usr/bin") "/tmp/a").2
          = delete "ssh" (running (world_with "/usr/bin"))).
Proof.
  split; [reflexivity |].
  exact (C6_registry_cleanup (world_with "/usr/bin") "/tmp/a" "ssh" eq_refl).
Defined.

(** C10: when the directory is found in the search path and setting the
    edited value fails, Remove returns that error; the filesystem and the
    environment are as before, and the registry has lost an entry of the
    directory. *)
Theorem C10_setenv_failure w tempdir front back err :
  HasPrefix tempdir (os.TempDir w) = true →
  0 <= Index (os.Getenv w "PATH") tempdir →
  slice_to (os.Getenv w "PATH") (Index (os.Getenv w "PATH") tempdir)
    = Some front →
  slice_from (os.Getenv w "PATH")
    (Index (os.Getenv w "PATH") tempdir + len tempdir + 1) = Some back →
  (os.Setenv w "PATH" (front +:+ back)).1 = Some err →
  ∃ w', Remove w tempdir = (Returned (Some err), w')
        ∧ fs w' = fs w ∧ environ w' = environ w
        ∧ ∀ name, running w !! name = Some tempdir →
            ∃ k, running w !! k = Some tempdir
                 ∧ running w' = delete k (running w).
Proof.
  intros Htmp Hidx Hfront Hback Herr. unfold Remove, Remove_body.
  rewrite Htmp, (proj2 (Z.ltb_ge _ _) Hidx), Hfront, Hback; simpl.
  rewrite Setenv_PATH in *. destruct (contains_byte NUL _); [| done].
  simpl in *. injection Herr as <-. eexists. split; [done |].
  split; [done |]. split; [done |]. intros name. apply Remove_deferred_entry.
Qed.

Lemma C10_setenv_failure_witness :
  HasPrefix "/tmp/a" (os.TempDir (world_with ("/tmp/a:" +:+ String NUL ""))) = true
  ∧ ∃ w', Remove (world_with ("/tmp/a:" +:+ String NUL "")) "/tmp/a"
          = (Returned (Some (OSError EINVAL)), w')
          ∧ fs w' = fs (world_with ("/tmp/a:" +:+ String NUL ""))
          ∧ environ w' = environ (world_with ("/tmp/a:" +:+ String NUL ""))
          ∧ ∀ name,
              running (world_with ("/tmp/a:" +:+ String NUL "")) !! name
              = Some "/tmp/a" →
              ∃ k, running (world_with ("/tmp/a:" +:+ String NUL "")) !! k
                   = Some "/tmp/a"
                   ∧ running w'
                     = delete k (running (world_with ("/tmp/a:" +:+ String NUL ""))).
Proof.
  split; [reflexivity |].
  apply (C10_setenv_failure (world_with ("/tmp/a:" +:+ String NUL "")) "/tmp/a"
           "" (String NUL "") (OSError EINVAL)); reflexivity.
Defined.

(** ** [Ran] *)

Lemma denied_not_ENOENT w sc p e : os.denied w sc p = Some e → e ≠ ENOENT.
Proof.
  unfold os.denied. destruct (contains_byte NUL p); [by intros [= <-] |].
  destruct (refuse w sc p); [by intros [= <-] | done].
Qed.

Lemma denied_None w sc p :
  os.denied w sc p = None ↔ nul_free p ∧ refuse w sc p = None.
Proof.
  unfold os.denied, nul_free. destruct (contains_byte NUL p); [by split; [| intros []] |].
  destruct (refuse w sc p); by split; [| intros []].
Qed.

(** C9, as the code has it: Ran returns true when the marker exists, returns
    false exactly when Stat reports that the marker does not exist, and never
    signals an error; any other failure of Stat counts as having run. *)
Theorem C9_ran w tempdir :
  (os.exists_at (fs w) (path.Join [tempdir; ".ran"]) = true → Ran w tempdir = true)
  ∧ (Ran w tempdir = false
     ↔ os.Stat w (path.Join [tempdir; ".ran"]) = Some (OSError ENOENT)).
Proof.
  unfold Ran, os.exists_at. cbv zeta. split.
  - intros Hex. unfold os.Stat.
    destruct (os.denied w SysStat _) as [e|] eqn:E;
      [apply denied_not_ENOENT in E; by destruct e |].
    by destruct (os.resolve _ _).
  - destruct (os.Stat w _) as [e|]; [destruct e as [[] | | |] |]; by split.
Qed.

(** C9 as stated fails: Ran is true for /etc/passwd, a file, inside which no
    marker can exist, and for /tmp when the system refuses to look at the
    marker, which does not exist either. *)
Lemma C9_counterexample :
  (Ran (world_with "/usr/bin") "/etc/passwd" = true
   ∧ path.Join ["/etc/passwd"; ".ran"] = "/etc/passwd/.ran"
   ∧ os.exists_at (fs (world_with "/usr/bin")) "/etc/passwd/.ran" = false
   ∧ fs (world_with "/usr/bin") !! "/etc/passwd/.ran" = None)
  ∧ (Ran (fresh_world stat_refused) "/tmp" = true
     ∧ path.Join ["/tmp"; ".ran"] = "/tmp/.ran"
     ∧ os.exists_at (fs (fresh_world stat_refused)) "/tmp/.ran" = false
     ∧ fs (fresh_world stat_refused) !! "/tmp/.ran" = None).
Proof. repeat split; reflexivity. Qed.

(** ** [add] *)

Lemma MkdirAll_running w p : running (os.MkdirAll w p).2 = running w.
Proof. unfold os.MkdirAll. by repeat case_match. Qed.

Lemma MkdirAll_environ w p : environ (os.MkdirAll w p).2 = environ w.
Proof. unfold os.MkdirAll. by repeat case_match. Qed.

Lemma OpenFile_same w p f w' :
  os.OpenFile w p = inr (f, w') → running w' = running w ∧ environ w' = environ w.
Proof. unfold os.OpenFile. repeat case_match; by intros [= <- <-]. Qed.

Lemma Write_same w f data :
  running (os.Write w f data).2 = running w
  ∧ environ (os.Write w f data).2 = environ w.
Proof. unfold os.Write. by repeat case_match. Qed.

Lemma Execute_same t f param w :
  running (template.Execute t f param w).2 = running w
  ∧ environ (template.Execute t f param w).2 = environ w.
Proof.
  revert w; induction t as [|n t IH]; intros w; simpl; [done |].
  destruct (os.Write w f _) as [[e|] w'] eqn:E;
    pose proof (Write_same w f
      match n with TText s => s | TField name => template.print (param !! name) end)
      as [Hr He]; rewrite E in Hr, He; simpl in *; [done |].
  destruct (IH w') as [Hr' He']. by rewrite Hr', He'.
Qed.

Lemma Setenv_running w key v : running (os.Setenv w key v).2 = running w.
Proof. unfold os.Setenv. by repeat case_match. Qed.

Lemma add_step_registered a w pc :
  registered a w pc → registered a (add_step a w pc).1 (add_step a w pc).2.
Proof.
  destruct pc as [| |d|d|d f|d f t|d|d err]; intros H; unfold add_step;
    cbn [registered] in H.
  - by case_match.
  - simpl. case_match; simpl; [by rewrite lookup_insert_eq | done].
  - pose proof (MkdirAll_running w d) as Hr.
    destruct (os.MkdirAll w d) as [[e|] w']; simpl in *; by rewrite Hr, H.
  - destruct (os.OpenFile w _) as [e|[f w']] eqn:E; simpl; [by rewrite H |].
    destruct (OpenFile_same _ _ _ _ E) as [Hr _]. by rewrite Hr.
  - by case_match; simpl; rewrite ?H.
  - cbv zeta.
    match goal with |- context [template.Execute t f ?p w] =>
      pose proof (Execute_same t f p w) as [Hr _];
      destruct (template.Execute t f p w) as [[e|] w'] end;
      cbn [fst snd registered] in *; by rewrite Hr, H.
  - pose proof (Setenv_running w "PATH" (d +:+ ":" +:+ os.Getenv w "PATH")) as Hr.
    cbv zeta. destruct (os.Setenv w "PATH" _) as [e w']; simpl in *.
    by rewrite Hr, H.
  - done.
Qed.

(** An invariant of the steps holds when the call returns. *)
Lemma add_from_invariant (P : World → add_pc → Prop) a :
  (∀ w pc, P w pc → P (add_step a w pc).1 (add_step a w pc).2) →
  ∀ fuel w pc tempdir err w',
    P w pc → add_from fuel a w pc = Some (tempdir, err, w') →
    P w' (AReturn tempdir err).
Proof.
  intros Hstep fuel. induction fuel as [|fuel IH]; intros w pc d e w' HP;
    destruct pc; cbn [add_from]; try done; try (by intros [= <- <- <-]);
    match goal with |- context [add_step a w ?pc] =>
      specialize (Hstep w pc HP); destruct (add_step a w pc) as [w1 pc1];
      by apply IH end.
Qed.

(** Whatever a call of [add] returns, it leaves the name in the registry. *)
Lemma add_from_registered a fuel w tempdir err w' :
  add_from fuel a w APoll = Some (tempdir, err, w') →
  is_Some (running w' !! name a).
Proof.
  intros H.
  by apply (add_from_invariant (registered a) a (add_step_registered a)
              fuel w APoll tempdir err w').
Qed.

(** A call for a name that is in the registry polls for ever when nothing
    else runs. *)
Lemma add_blocked a w d fuel :
  running w !! name a = Some d → add_from fuel a w APoll = None.
Proof.
  intros Hreg. induction fuel as [|fuel IH]; simpl; [done |]. by rewrite Hreg.
Qed.

(** C1 at a failing input: the system lets no directory be made.  The call
    returns the error with "ssh" still in the registry, and the next call
    for "ssh" never returns. *)
Theorem C1_failed_add_stays_registered :
  ∃ w', add 3 (fresh_world mkdir_refused) "ssh" "" "HELP!" 1
        = Some ("", Some (OSError (Refused EACCES)), w')
        ∧ running w' !! "ssh" = Some "/tmp/commandmocker-00000000000000ff"
        ∧ ∀ fuel, add fuel w' "ssh" "" "HELP!" 1 = None.
Proof.
  eexists. split; [vm_compute; reflexivity |]. split; [reflexivity |].
  intros fuel. by eapply add_blocked.
Qed.

(** A call of add for a name that is in the registry does not return and
    leaves the world alone as long as nothing else runs; among other
    goroutines it stays at its poll, whatever they do, as long as every world
    passed through has the name in the registry, and it goes on from a world
    that has not. *)
Lemma add_waits_while_registered a w0 d seen w pc :
  running w0 !! name a = Some d →
  conc_run a (w0, APoll) seen (w, pc) →
  (∀ fuel, add_from fuel a w0 APoll = None)
  ∧ (∀ w1, (add_step a w1 APoll).1 = w1)
  ∧ ((∀ wi, wi ∈ seen → is_Some (running wi !! name a)) → pc = APoll)
  ∧ (running w !! name a = None → pc = APoll →
     add_step a w pc = (w, AGenerate)).
Proof.
  intros Hreg Hrun.
  split; [intros fuel; by eapply add_blocked |].
  split; [by intros w1; simpl; case_match |].
  split; [| by intros Hfree ->; simpl; rewrite Hfree].
  clear Hreg d. remember (w0, APoll) as s eqn:Hs. remember (w, pc) as s' eqn:Hs'.
  revert w0 Hs. induction Hrun as [s|s s1 s' seen Hstep Hrun IH]; intros w0 -> Hall.
  - by injection Hs' as _ <-.
  - simpl in Hall.
    destruct (Hall w0) as [d Hd]; [by apply elem_of_cons; left |].
    assert (s1.2 = APoll) as Hpc.
    { inversion Hstep; subst; simpl; [by rewrite Hd | done]. }
    destruct s1 as [w1 pc1]; simpl in Hpc; subst pc1.
    apply (IH Hs' w1 eq_refl). intros wi Hwi. apply Hall, elem_of_cons. by right.
Qed.

(** C2 at a failing schedule: the mock of ssh in /tmp/a is live and two calls
    of add for ssh wait for it.  Once Remove has taken it out of the
    registry both calls find the name free at their poll, and both go on: at
    the end two instances of ssh are live, in different directories, the
    first of them no longer in the registry. *)
Theorem C2_waiting_calls_collide :
  live (world_with "/tmp/a:/usr/bin") "ssh" "/tmp/a" = true
  ∧ schedule_run (world_with "/tmp/a:/usr/bin") waiting_pool [0; 1]%nat
    = (world_with "/tmp/a:/usr/bin", waiting_pool)
  ∧ (schedule_run (world_with "/tmp/a:/usr/bin") waiting_pool collision_schedule).2
    = [AddCall ssh_args (AReturn "/tmp/commandmocker-00000000000000ff" None);
       AddCall ssh_args (AReturn "/tmp/commandmocker-0000000000000100" None);
       RemoveCall "/tmp/a" (Some (Returned None))]
  ∧ live (schedule_run (world_with "/tmp/a:/usr/bin") waiting_pool
            collision_schedule).1 "ssh" "/tmp/commandmocker-00000000000000ff" = true
  ∧ live (schedule_run (world_with "/tmp/a:/usr/bin") waiting_pool
            collision_schedule).1 "ssh" "/tmp/commandmocker-0000000000000100" = true
  ∧ os.Getenv (schedule_run (world_with "/tmp/a:/usr/bin") waiting_pool
                 collision_schedule).1 "PATH"
    = "/tmp/commandmocker-0000000000000100:/tmp/commandmocker-00000000000000ff:/usr/bin"
  ∧ running (schedule_run (world_with "/tmp/a:/usr/bin") waiting_pool
               collision_schedule).1 !! "ssh"
    = Some "/tmp/commandmocker-0000000000000100".
Proof. repeat split; vm_compute; reflexivity. Qed.

(** ** NUL bytes: none comes out of [path.Join] that did not go in *)

Section ContainsByte.

Variable c : ascii.

Lemma contains_byte_append a b :
  contains_byte c (a +:+ b) = contains_byte c a || contains_byte c b.
Proof.
  induction a as [|x a IH]; simpl; [done |]. rewrite IH. by destruct (Ascii.eqb x c).
Qed.

Lemma free_split_on d s : contains_byte c s = false →
  Forall (λ e, contains_byte c e = false) (split_on d s).
Proof.
  induction s as [|x s IH]; simpl; [by repeat constructor |].
  destruct (Ascii.eqb x c) eqn:Ex; [done |]. intros Hs. specialize (IH Hs).
  destruct (Ascii.eqb x d).
  - by constructor.
  - destruct (split_on d s) as [|y ys]; [by repeat constructor; simpl; rewrite Ex |].
    apply Forall_cons in IH as [Hy Hys]. constructor; [| done].
    simpl. by rewrite Ex.
Qed.

Lemma free_join sep l : contains_byte c sep = false →
  Forall (λ e, contains_byte c e = false) l →
  contains_byte c (join sep l) = false.
Proof.
  intros Hsep. induction l as [|x [|y l] IH]; intros Hl; [done | |].
  - by apply Forall_cons in Hl as [Hx _].
  - apply Forall_cons in Hl as [Hx Hl].
    change (join sep (x :: y :: l)) with (x +:+ sep +:+ join sep (y :: l)).
    by rewrite !contains_byte_append, Hx, Hsep, IH.
Qed.

Lemma free_clean_elems rooted elems stack :
  Forall (λ e, contains_byte c e = false) elems →
  Forall (λ e, contains_byte c e = false) stack →
  Forall (λ e, contains_byte c e = false) (path.clean_elems rooted elems stack).
Proof.
  revert stack; induction elems as [|e elems IH]; intros stack He Hst; simpl.
  - by apply Forall_rev.
  - apply Forall_cons in He as [He Hel].
    repeat case_match; apply IH; try done; try (by constructor).
    all: by match goal with H : Forall _ (_ :: _) |- _ =>
              apply Forall_cons in H as [_ ?] end.
Qed.

Lemma free_Clean p :
  contains_byte c "/" = false → contains_byte c "." = false →
  contains_byte c p = false → contains_byte c (path.Clean p) = false.
Proof.
  intros Hslash Hdot Hp. unfold path.Clean. destruct p as [|x p]; [done |].
  pose proof (free_clean_elems (Ascii.eqb x "/") (split_on "/" (String x p)) []
                (free_split_on _ _ Hp) (List.Forall_nil _)) as Hkept.
  destruct (Ascii.eqb x "/").
  - rewrite contains_byte_append, Hslash. by apply free_join.
  - destruct (path.clean_elems _ _ _) eqn:E; [done |]. by apply free_join.
Qed.

Lemma free_Join elem :
  contains_byte c "/" = false → contains_byte c "." = false →
  Forall (λ e, contains_byte c e = false) elem →
  contains_byte c (path.Join elem) = false.
Proof.
  intros Hslash Hdot Hel. unfold path.Join.
  assert (Forall (λ e, contains_byte c e = false) (filter (λ e, e ≠ "") elem))
    as Hne.
  { apply Forall_forall. intros e [_ He]%list_elem_of_filter.
    rewrite Forall_forall in Hel. by apply Hel. }
  destruct (filter _ elem) as [|e1 rest] eqn:E; [done |].
  apply free_Clean; try done. by apply free_join.
Qed.

End ContainsByte.

Lemma hexdigit_not_NUL d : Ascii.eqb (hexdigit d) NUL = false.
Proof. unfold hexdigit. by repeat case_match. Qed.

Lemma hex_nul_free digits n acc : nul_free acc → nul_free (hex digits n acc).
Proof.
  revert n acc; induction digits as [|k IH]; intros n acc Hacc; simpl; [done |].
  apply IH. unfold nul_free; simpl. by rewrite hexdigit_not_NUL.
Qed.

Lemma tempname_nul_free buf : nul_free (tempname buf).
Proof.
  unfold nul_free, tempname. rewrite contains_byte_append.
  by rewrite (hex_nul_free 16 buf "").
Qed.

Lemma Getenv_nul_free w key : env_wf w → nul_free (os.Getenv w key).
Proof.
  intros Hwf. unfold os.Getenv.
  destruct (environ w !! key) as [v|] eqn:E; simpl; [by eapply Hwf | done].
Qed.

Lemma TempDir_nul_free w : env_wf w → nul_free (os.TempDir w).
Proof.
  intros Hwf. unfold os.TempDir. case_decide; [done | by apply Getenv_nul_free].
Qed.

Lemma env_wf_same w0 w : environ w = environ w0 → env_wf w0 → env_wf w.
Proof. intros He Hwf key v. rewrite He. apply Hwf. Qed.

Lemma add_step_on_track a w0 w pc :
  env_wf w0 →
  on_track w0 w pc → on_track w0 (add_step a w pc).1 (add_step a w pc).2.
Proof.
  intros Hwf.
  destruct pc as [| |d|d|d f|d f t|d|d err]; intros H; unfold add_step;
    cbn [on_track] in H.
  - by case_match.
  - simpl. case_match; simpl; [| done]. split; [done |].
    apply free_Join; try done. repeat constructor.
    + apply TempDir_nul_free. by apply (env_wf_same w0).
    + apply tempname_nul_free.
  - destruct H as [He Hd]. pose proof (MkdirAll_environ w d) as He'.
    destruct (os.MkdirAll w d) as [[e|] w']; simpl in *; [done |].
    by rewrite He'.
  - destruct H as [He Hd].
    destruct (os.OpenFile w _) as [e|[f w']] eqn:E; simpl; [done |].
    destruct (OpenFile_same _ _ _ _ E) as [_ He']. by rewrite He'.
  - by case_match.
  - destruct H as [He Hd]. cbv zeta.
    match goal with |- context [template.Execute t f ?p w] =>
      pose proof (Execute_same t f p w) as [_ He'];
      destruct (template.Execute t f p w) as [[e|] w'] end;
      cbn [fst snd on_track] in *; [done |]. by rewrite He'.
  - destruct H as [He Hd]. cbv zeta. rewrite Setenv_PATH.
    assert (contains_byte NUL (d +:+ ":" +:+ os.Getenv w "PATH") = false) as ->.
    { rewrite !contains_byte_append, Hd.
      by rewrite (Getenv_nul_free w "PATH" (env_wf_same w0 w He Hwf)). }
    simpl. unfold os.Getenv at 1; simpl. rewrite lookup_insert_eq; simpl.
    unfold os.Getenv. by rewrite He.
  - done.
Qed.

Lemma split_on_append c a b :
  contains_byte c a = false → split_on c (a +:+ String c b) = a :: split_on c b.
Proof.
  induction a as [|x a IH]; simpl.
  - by rewrite Ascii.eqb_refl.
  - destruct (Ascii.eqb x c); [done |]. intros Ha. by rewrite IH.
Qed.


Lemma fresh_world_wf refuse : env_wf (fresh_world refuse).
Proof.
  intros key v. unfold fresh_world; simpl.
  by intros [_ <-]%lookup_singleton_Some.
Qed.


(** ** The parameters log *)


Lemma ancestors_from_prefix before rest a :
  a ∈ path.ancestors_from before rest → ∃ r, before +:+ rest = a +:+ "/" +:+ r.
Proof.
  revert before; induction rest as [|c rest IH]; intros before; simpl.
  - by intros ?%elem_of_nil.
  - destruct (Ascii.eqb_spec c "/") as [->|Hc].
    + intros [Hin | Hin]%elem_of_app.
      * case_decide; [by apply elem_of_nil in Hin |].
        apply list_elem_of_singleton in Hin as ->. by exists rest.
      * destruct (IH _ Hin) as [r Hr]. exists r.
        rewrite append_assoc in Hr. exact Hr.
    + intros Hin. destruct (IH _ Hin) as [r Hr]. exists r.
      rewrite append_assoc in Hr. exact Hr.
Qed.

Lemma append_neq_self a b : b ≠ "" → a +:+ b ≠ a.
Proof.
  intros Hb Heq. apply Hb. apply (append_inj_l a). by rewrite append_nil_r.
Qed.

(** The log files of a directory are no ancestors of its parameters log. *)
Lemma log_not_ancestor dirname leaf r :
  leaf ∈ [".out"; ".err"; ".params"; ".ran"; ".envs"] →
  dirname +:+ "/.params" ≠ (dirname +:+ "/" +:+ leaf) +:+ "/" +:+ r.
Proof.
  intros Hleaf Heq. rewrite append_assoc in Heq. apply append_inj_l in Heq.
  repeat (apply elem_of_cons in Hleaf as [-> | Hleaf]; [by simplify_eq/= |]).
  by apply elem_of_nil in Hleaf.
Qed.

Lemma walk_insert f k n dirs :
  k ∉ dirs → os.walk (<[k := n]> f) dirs = os.walk f dirs.
Proof.
  induction dirs as [|d dirs IH]; simpl; [done |].
  intros [Hne Hnotin]%not_elem_of_cons.
  rewrite lookup_insert_ne by done. by rewrite IH.
Qed.

Lemma append_spec f q data f' :
  script.append f q data = Some f' →
  os.walk f (path.ancestors q) = None
  ∧ f' = <[q := File (content f q +:+ data)]> f.
Proof.
  unfold script.append, content. destruct (os.walk f _); [done |].
  destruct (f !! q) as [[|old]|]; [done | |]; by intros [= <-].
Qed.

(** Appending to a log leaves the parameters log and the way to it alone. *)
Lemma append_log f dirname leaf data f' :
  leaf ∈ [".out"; ".err"; ".params"; ".ran"; ".envs"] →
  script.append f (dirname +:+ "/" +:+ leaf) data = Some f' →
  os.walk f' (path.ancestors (dirname +:+ "/.params"))
  = os.walk f (path.ancestors (dirname +:+ "/.params"))
  ∧ (leaf ≠ ".params" →
     f' !! (dirname +:+ "/.params") = f !! (dirname +:+ "/.params")).
Proof.
  intros Hleaf [_ ->]%append_spec. split.
  - apply walk_insert. intros [r Hr]%ancestors_from_prefix.
    by apply (log_not_ancestor dirname leaf r).
  - intros Hne. apply lookup_insert_ne. intros Heq%append_inj_l. by simplify_eq/=.
Qed.





Lemma split_on_log_text args :
  Forall lf_free args → split_on LF (log_text args) = args ++ [""].
Proof.
  induction args as [|a args IH]; [done |]. intros [Ha Hargs]%Forall_cons.
  simpl. unfold nl. by rewrite split_on_append, IH.
Qed.

Lemma lines_complete args : bufio.lines (args ++ [""]) = args.
Proof.
  induction args as [|a args IH]; [done |].
  change ((a :: args) ++ [""]) with (a :: (args ++ [""])).
  destruct (args ++ [""]) as [|x xs] eqn:E; [by destruct args |].
  change (bufio.lines (a :: x :: xs)) with (a :: bufio.lines (x :: xs)).
  by rewrite IH.
Qed.







(** A line of 64 KiB or more ends the scan: that argument and all after it
    are missing from what Parameters returns. *)
Lemma ScanAll_too_long arg rest :
  Forall lf_free (arg :: rest) →
  bufio.MaxScanTokenSize <= len arg →
  bufio.ScanAll (log_text (arg :: rest)) = [].
Proof.
  intros Hlf Hlong. unfold bufio.ScanAll.
  rewrite split_on_log_text, lines_complete by done. simpl.
  by rewrite (proj2 (Z.ltb_ge _ _) Hlong).
Qed.

(** * More of mocker.go *)

(** ** The script file *)

Lemma Parse_source name : template.Parse name source = inr source_nodes.
Proof. vm_compute. reflexivity. Qed.

Lemma render_source a :
  render source_nodes (add_param a) = script_text (stdout a) (stderr a) (status a).
Proof.
  unfold render, source_nodes, add_param, script_text. cbn [foldr].
  rewrite lookup_insert_eq, lookup_insert_ne, lookup_insert_eq by done.
  rewrite lookup_insert_ne, lookup_insert_ne, lookup_insert_eq by done.
  cbn [template.print]. by rewrite append_nil_r.
Qed.

Lemma Write_spec w f data :
  refuse (os.Write w f data).2 = refuse w
  ∧ entropy (os.Write w f data).2 = entropy w
  ∧ match (os.Write w f data).1 with
    | Some e => (∃ en, e = OSError en) ∧ fs (os.Write w f data).2 = fs w
    | None =>
        ∃ old, fs w !! f = Some (File old)
               ∧ fs (os.Write w f data).2 = <[f := File (old +:+ data)]> (fs w)
    end.
Proof.
  unfold os.Write. destruct (refuse w SysWrite f); simpl; [by eauto |].
  destruct (fs w !! f) as [[|old]|]; simpl; eauto.
Qed.

Lemma Execute_spec t f param w old :
  fs w !! f = Some (File old) →
  refuse (template.Execute t f param w).2 = refuse w
  ∧ entropy (template.Execute t f param w).2 = entropy w
  ∧ match (template.Execute t f param w).1 with
    | Some e => ∃ en, e = OSError en
    | None =>
        fs (template.Execute t f param w).2 !! f
        = Some (File (old +:+ render t param))
        ∧ ∀ q, q ≠ f → fs (template.Execute t f param w).2 !! q = fs w !! q
    end.
Proof.
  revert w old; induction t as [|n t IH]; intros w old Hf; simpl.
  - by rewrite append_nil_r.
  - set (text := match n with
                 | TText s => s
                 | TField name => template.print (param !! name)
                 end).
    pose proof (Write_spec w f text) as (Hr & He & Hw).
    destruct (os.Write w f text) as [[e|] w1]; simpl in *; [by destruct Hw |].
    destruct Hw as (old' & Hold & Hfs). rewrite Hf in Hold. injection Hold as <-.
    assert (fs w1 !! f = Some (File (old +:+ text))) as Hf1
      by (by rewrite Hfs, lookup_insert_eq).
    destruct (IH w1 _ Hf1) as (Hr' & He' & Hx).
    rewrite Hr', He'. split; [done |]. split; [done |].
    destruct (template.Execute t f param w1).1; [done |].
    destruct Hx as [Hc Ho]. split; [by rewrite Hc, append_assoc |].
    intros q Hq. rewrite Ho by done. by rewrite Hfs, lookup_insert_ne.
Qed.

Lemma mkdirs_last f dirs d f' :
  os.mkdirs f (dirs ++ [d]) = (None, f') → f' !! d = Some Dir ∧ nul_free d.
Proof.
  revert f; induction dirs as [|x dirs IH]; intros f; simpl.
  - unfold nul_free. destruct (contains_byte NUL d); [done |].
    destruct (f !! d) as [[|?]|] eqn:E; intros [= <-]; [done |].
    by rewrite lookup_insert_eq.
  - destruct (contains_byte NUL x); [done |].
    destruct (f !! x) as [[|?]|]; [apply IH | done | apply IH].
Qed.

Lemma MkdirAll_spec w p :
  refuse (os.MkdirAll w p).2 = refuse w
  ∧ entropy (os.MkdirAll w p).2 = entropy w
  ∧ match (os.MkdirAll w p).1 with
    | Some e => ∃ en, e = OSError en
    | None => fs (os.MkdirAll w p).2 !! p = Some Dir
    end.
Proof.
  unfold os.MkdirAll.
  destruct (if contains_byte NUL p then None else refuse w SysMkdir p);
    simpl; [by eauto |].
  destruct (os.mkdirs _ _) as [[e|] f'] eqn:E; simpl; [by eauto |].
  repeat split. by eapply mkdirs_last.
Qed.

Lemma OpenFile_spec w p :
  match os.OpenFile w p with
  | inl e => ∃ en, e = OSError en
  | inr (f, w') =>
      f = p ∧ refuse w' = refuse w ∧ entropy w' = entropy w
      ∧ running w' = running w ∧ environ w' = environ w
      ∧ fs w !! p ≠ Some Dir ∧ fs w' = <[p := File ""]> (fs w)
  end.
Proof.
  unfold os.OpenFile. destruct (os.denied w SysOpen p); [by eauto |].
  destruct (os.walk _ _); [by eauto |]. case_decide; [by eauto |].
  destruct (fs w !! p) as [[|?]|] eqn:E; [by eauto | |]; by repeat split.
Qed.

Lemma Stat_same w w' p :
  fs w = fs w' → refuse w = refuse w' → os.Stat w p = os.Stat w' p.
Proof. unfold os.Stat, os.denied. by intros -> ->. Qed.

Lemma TempDir_same w w' : environ w = environ w' → os.TempDir w = os.TempDir w'.
Proof. unfold os.TempDir, os.Getenv. by intros ->. Qed.

(** ** Registry and disk along a call of [add] *)

Lemma born_same a w0 w w' d :
  running w' = running w → born a w0 w d → born a w0 w' d.
Proof. intros Hr (H1 & H2 & H3 & H4). by rewrite <- Hr in H2. Qed.

Ltac files_split :=
  unfold add_files; cbn [fst snd]; split; [| split; [| split]].

Lemma add_step_files a w0 w pc :
  add_files a w0 w pc → add_files a w0 (add_step a w pc).1 (add_step a w pc).2.
Proof.
  destruct pc as [| |d|d|d f|d f t|d|d err];
    intros (Hr & He & Hk & H); unfold add_step.
  - destruct H as (Hrun & Henv & Hfs).
    destruct (running w !! name a) eqn:E; files_split; try done.
    split; [by rewrite <- Hrun | done].
  - destruct H as (Hfree & Hrun & Henv & Hfs). unfold rand_Read. cbv zeta.
    set (buf := (entropy w (drawn w) mod 2 ^ 64)%N).
    set (w1 := set_drawn w (S (drawn w))).
    set (d := path.Join [os.TempDir w1; tempname buf]).
    destruct (os.IsNotExist (os.Stat w1 d)) eqn:E; files_split; try done.
    split; [| done]. split; [done |]. split; [by simpl; rewrite Hrun |]. split.
    + exists buf. split; [by apply N.mod_lt |].
      unfold d. by rewrite (TempDir_same w1 w0).
    + by rewrite <- (Stat_same w1 w0 d).
  - destruct H as (Hb & Henv & Hfs).
    pose proof (MkdirAll_spec w d) as (Hr' & He' & Hm).
    pose proof (MkdirAll_running w d) as Hrun.
    pose proof (MkdirAll_environ w d) as Henv'.
    destruct (os.MkdirAll w d) as [[e|] w']; simpl in *;
      assert (born a w0 w' d) as Hb' by (by apply (born_same a w0 w));
      files_split; rewrite ?Hr', ?He', ?Henv'; try done.
    all: repeat (split; [done |]); by exists d.
  - destruct H as (Hb & Henv & Hd).
    pose proof (OpenFile_spec w (path.Join [d; name a])) as Ho.
    destruct (os.OpenFile w _) as [e|[f w']].
    + files_split; try done. repeat (split; [done |]). by exists d.
    + destruct Ho as (-> & Hr' & He' & Hrun & Henv' & Hnd & Hfs).
      assert (born a w0 w' d) as Hb' by (by apply (born_same a w0 w)).
      files_split; rewrite ?Hr', ?He', ?Henv'; try done.
      split; [done |]. split; [done |]. split; [| split; [done |]].
      * rewrite Hfs, lookup_insert_ne; [done |]. intros Heq. by rewrite Heq in Hnd.
      * by rewrite Hfs, lookup_insert_eq.
  - rewrite Parse_source. destruct H as (? & ? & ? & ? & ?).
    files_split; try done. all: by repeat (split; [done |]).
  - destruct H as (Hb & Henv & Hd & -> & Hf & ->). cbv zeta.
    change (<["output" := VString (stdout a)]> _) with (add_param a).
    pose proof (Execute_spec source_nodes _ (add_param a) w "" Hf) as (Hr' & He' & Hx).
    pose proof (Execute_same source_nodes (path.Join [d; name a]) (add_param a) w)
      as [Hrun Henv'].
    destruct (template.Execute _ _ _ w) as [[e|] w']; cbn [fst snd] in *;
      assert (born a w0 w' d) as Hb' by (by apply (born_same a w0 w));
      files_split; rewrite ?Hr', ?He', ?Henv'; try done.
    + repeat (split; [done |]). by exists d.
    + destruct Hx as [Hc Hq]. repeat (split; [done |]). split.
      * rewrite Hq; [done |]. intros Heq. rewrite Heq in Hd. by rewrite Hd in Hf.
      * by rewrite Hc, render_source.
  - destruct H as (Hb & Henv & Hd & Hf). cbv zeta. rewrite Setenv_PATH.
    destruct (contains_byte NUL _); files_split; try done.
    intros key Hkey. simpl. rewrite lookup_insert_ne by done. by apply Hk.
  - by files_split.
Qed.

Lemma add_files_start a w : add_files a w w APoll.
Proof. by files_split. Qed.

Lemma add_files_return fuel w name stdout stderr status tempdir err w' :
  add fuel w name stdout stderr status = Some (tempdir, err, w') →
  add_files (mkArgs name stdout stderr status) w w' (AReturn tempdir err).
Proof.
  intros Hadd.
  exact (add_from_invariant (add_files _ w) _ (add_step_files _ w)
           fuel w APoll tempdir err w' (add_files_start _ w) Hadd).
Qed.

Lemma add_example :
  add 8 (fresh_world no_refusal) "ssh" "" "HELP!" 1
  = Some ("/tmp/commandmocker-00000000000000ff", None, world_after_add).
Proof. vm_compute. reflexivity. Qed.

(** A call of add that returns no error found the name free and has put it
    in the registry with the returned directory; no other entry changed. *)
Theorem add_registers fuel w name stdout stderr status tempdir w' :
  add fuel w name stdout stderr status = Some (tempdir, None, w') →
  running w !! name = None ∧ running w' = <[name := tempdir]> (running w).
Proof.
  intros Hadd. apply add_files_return in Hadd as (_ & _ & _ & Hb & _).
  by destruct Hb as (? & ? & _).
Qed.

Lemma add_registers_witness :
  running (fresh_world no_refusal) !! "ssh" = None
  ∧ running world_after_add
    = <["ssh" := "/tmp/commandmocker-00000000000000ff"]>
        (running (fresh_world no_refusal)).
Proof.
  exact (add_registers 8 (fresh_world no_refusal) "ssh" "" "HELP!" 1 _ _
           add_example).
Defined.

(** After a call of add that returns no error the returned directory is a
    directory on disk and the file named [name] in it holds the script: the
    text of [source] with stdout, stderr and the status in decimal in place
    of the three fields. *)
Theorem add_writes_script fuel w name stdout stderr status tempdir w' :
  add fuel w name stdout stderr status = Some (tempdir, None, w') →
  fs w' !! tempdir = Some Dir
  ∧ fs w' !! path.Join [tempdir; name]
    = Some (File (script_text stdout stderr status)).
Proof.
  intros Hadd. apply add_files_return in Hadd as (_ & _ & _ & _ & Hd & Hf).
  by split.
Qed.

Lemma add_writes_script_witness :
  fs world_after_add !! "/tmp/commandmocker-00000000000000ff" = Some Dir
  ∧ fs world_after_add !! path.Join ["/tmp/commandmocker-00000000000000ff"; "ssh"]
    = Some (File (script_text "" "HELP!" 1)).
Proof.
  exact (add_writes_script 8 (fresh_world no_refusal) "ssh" "" "HELP!" 1 _ _
           add_example).
Defined.

Lemma hex_length digits n acc :
  String.length (hex digits n acc) = (digits + String.length acc)%nat.
Proof.
  revert n acc; induction digits as [|k IH]; intros n acc; simpl; [done |].
  rewrite IH. simpl. lia.
Qed.

Lemma hexdigit_lower d : contains_byte (hexdigit d) "0123456789abcdef" = true.
Proof. unfold hexdigit. by repeat case_match. Qed.

Lemma hex_lower digits n acc : lower_hex acc = true → lower_hex (hex digits n acc) = true.
Proof.
  revert n acc; induction digits as [|k IH]; intros n acc Hacc; simpl; [done |].
  apply IH. cbn [lower_hex]. by rewrite hexdigit_lower.
Qed.

(** The directory a call of add returns is the temporary root joined with
    "commandmocker-" and 16 lower-case hex digits, and no such path was on
    disk when the call started. *)
Theorem add_fresh_directory fuel w name stdout stderr status tempdir w' :
  add fuel w name stdout stderr status = Some (tempdir, None, w') →
  os.IsNotExist (os.Stat w tempdir) = true
  ∧ ∃ digits, tempdir = path.Join [os.TempDir w; "commandmocker-" +:+ digits]
              ∧ String.length digits = 16%nat ∧ lower_hex digits = true.
Proof.
  intros Hadd. apply add_files_return in Hadd as (_ & _ & _ & Hb & _).
  destruct Hb as (_ & _ & (buf & _ & ->) & Hnew). split; [done |].
  exists (hex 16 buf ""). split; [done |]. split; [apply hex_length |].
  by apply hex_lower.
Qed.

Lemma add_fresh_directory_witness :
  os.IsNotExist (os.Stat (fresh_world no_refusal)
                   "/tmp/commandmocker-00000000000000ff") = true
  ∧ ∃ digits,
      "/tmp/commandmocker-00000000000000ff"
      = path.Join [os.TempDir (fresh_world no_refusal); "commandmocker-" +:+ digits]
      ∧ String.length digits = 16%nat ∧ lower_hex digits = true.
Proof.
  exact (add_fresh_directory 8 (fresh_world no_refusal) "ssh" "" "HELP!" 1 _ _
           add_example).
Defined.

(** A call of add that returns an error returns the empty string as the
    directory, has left the environment as it was, and the error is one of
    the operating system: parsing [source] never fails. *)
Theorem add_error_return fuel w name stdout stderr status tempdir err w' :
  add fuel w name stdout stderr status = Some (tempdir, Some err, w') →
  tempdir = "" ∧ environ w' = environ w ∧ ∃ en, err = OSError en.
Proof.
  intros Hadd. apply add_files_return in Hadd as (_ & _ & _ & ? & ? & ? & _).
  by repeat split.
Qed.

Lemma add_refused_example :
  add 3 (fresh_world mkdir_refused) "ssh" "" "HELP!" 1
  = Some ("", Some (OSError (Refused EACCES)), world_after_refused_add).
Proof. vm_compute. reflexivity. Qed.

Lemma add_error_return_witness :
  "" = ""
  ∧ environ world_after_refused_add = environ (fresh_world mkdir_refused)
  ∧ ∃ en, OSError (Refused EACCES) = OSError en.
Proof.
  exact (add_error_return 3 (fresh_world mkdir_refused) "ssh" "" "HELP!" 1 _ _ _
           add_refused_example).
Defined.

(** ** [add] returns *)

Lemma add_from_more fuel extra a w pc r :
  add_from fuel a w pc = Some r → add_from (fuel + extra) a w pc = Some r.
Proof.
  revert w pc; induction fuel as [|fuel IH]; intros w pc;
    destruct pc; cbn [add_from Nat.add]; try done;
    try (by destruct extra);
    match goal with |- context [add_step a w ?pc] =>
      destruct (add_step a w pc) as [w1 pc1]; apply IH end.
Qed.

Lemma add_from_SetPath a w d : is_Some (add_from 1 a w (ASetPath d)).
Proof.
  cbn [add_from]. unfold add_step. cbv zeta.
  destruct (os.Setenv w "PATH" _) as [e w']. by eexists.
Qed.

Lemma add_from_Execute a w d f t : is_Some (add_from 2 a w (AExecute d f t)).
Proof.
  cbn [add_from]. unfold add_step at 1. cbv zeta.
  destruct (template.Execute _ _ _ w) as [[e|] w']; [by eexists |].
  apply add_from_SetPath.
Qed.

Lemma add_from_Parse a w d f : is_Some (add_from 3 a w (AParse d f)).
Proof.
  cbn [add_from]. unfold add_step at 1. rewrite Parse_source.
  apply add_from_Execute.
Qed.

Lemma add_from_Open a w d : is_Some (add_from 4 a w (AOpen d)).
Proof.
  cbn [add_from]. unfold add_step at 1.
  destruct (os.OpenFile w _) as [e|[f w']]; [by eexists |]. apply add_from_Parse.
Qed.

Lemma add_from_Mkdir a w d : is_Some (add_from 5 a w (AMkdir d)).
Proof.
  cbn [add_from]. unfold add_step at 1.
  destruct (os.MkdirAll w d) as [[e|] w']; [by eexists |]. apply add_from_Open.
Qed.

Lemma add_from_Generate a n w :
  os.IsNotExist
    (os.Stat w (path.Join [os.TempDir w;
                           tempname (entropy w (drawn w + n) mod 2 ^ 64)%N])) = true →
  is_Some (add_from (n + 6) a w AGenerate).
Proof.
  revert w; induction n as [|n IH]; intros w Hnew.
  - rewrite Nat.add_0_r in Hnew. change (0 + 6)%nat with 6%nat.
    cbn [add_from]. unfold add_step at 1, rand_Read. cbv zeta.
    set (w1 := set_drawn w (S (drawn w))).
    set (d := path.Join [os.TempDir w1; tempname (entropy w (drawn w) mod 2 ^ 64)%N]).
    destruct (os.IsNotExist (os.Stat w1 d)) eqn:E; [apply add_from_Mkdir |].
    discriminate (eq_trans (eq_sym E) Hnew).
  - change (S n + 6)%nat with (S (n + 6)). cbn [add_from].
    unfold add_step at 1, rand_Read. cbv zeta.
    set (w1 := set_drawn w (S (drawn w))).
    set (d := path.Join [os.TempDir w1; tempname (entropy w (drawn w) mod 2 ^ 64)%N]).
    destruct (os.IsNotExist (os.Stat w1 d)) eqn:E.
    + destruct (add_from_Mkdir a
                  (set_running w1 (<[name a := d]> (running w1))) d) as [r Hr].
      exists r. replace (n + 6)%nat with (5 + (n + 1))%nat by lia.
      by apply add_from_more.
    + apply IH. replace (drawn w + S n)%nat with (S (drawn w) + n)%nat in Hnew by lia.
      exact Hnew.
Qed.

Lemma add_from_Poll a n w :
  running w !! name a = None →
  os.IsNotExist
    (os.Stat w (path.Join [os.TempDir w;
                           tempname (entropy w (drawn w + n) mod 2 ^ 64)%N])) = true →
  is_Some (add_from (n + 7) a w APoll).
Proof.
  intros Hfree Hnew. replace (n + 7)%nat with (S (n + 6)) by lia.
  cbn [add_from]. unfold add_step at 1. rewrite Hfree.
  by apply add_from_Generate.
Qed.

(** A call of add for a name that is not in the registry returns, with an
    error or without, once one of the directory names it draws is not on
    disk: after [n] names that are, within [n + 7] steps. *)
Theorem add_returns n w name stdout stderr status :
  running w !! name = None →
  os.IsNotExist
    (os.Stat w (path.Join [os.TempDir w;
                           tempname (entropy w (drawn w + n) mod 2 ^ 64)%N])) = true →
  is_Some (add (n + 7) w name stdout stderr status).
Proof.
  intros Hfree Hnew.
  exact (add_from_Poll (mkArgs name stdout stderr status) n w Hfree Hnew).
Qed.

Lemma add_returns_witness :
  running (fresh_world no_refusal) !! "ssh" = None
  ∧ is_Some (add (0 + 7) (fresh_world no_refusal) "ssh" "" "HELP!" 1).
Proof.
  split; [reflexivity |].
  apply (add_returns 0 (fresh_world no_refusal) "ssh" "" "HELP!" 1); reflexivity.
Defined.


(** ** Clean paths *)

Lemma split_on_free c e : contains_byte c e = false → split_on c e = [e].
Proof.
  induction e as [|x e IH]; simpl; [done |].
  destruct (Ascii.eqb x c); [done |]. intros He. by rewrite IH.
Qed.

Lemma split_on_last c a e :
  contains_byte c e = false → split_on c (a +:+ String c e) = split_on c a ++ [e].
Proof.
  intros He. induction a as [|x a IH]; simpl.
  - by rewrite Ascii.eqb_refl, split_on_free.
  - destruct (Ascii.eqb x c); [by rewrite IH |]. rewrite IH.
    pose proof (split_on_nonempty c a) as Hne.
    by destruct (split_on c a).
Qed.

Lemma split_join c l :
  Forall (λ e, contains_byte c e = false) l → l ≠ [] →
  split_on c (join (String c "") l) = l.
Proof.
  induction l as [|x [|y l] IH]; intros Hl Hne; [done | |].
  - apply Forall_cons in Hl as [Hx _]. by apply split_on_free.
  - apply Forall_cons in Hl as [Hx Hl].
    change (join (String c "") (x :: y :: l))
      with (x +:+ String c (join (String c "") (y :: l))).
    by rewrite split_on_append, IH.
Qed.

Lemma rev_replicate k (x : string) : rev (replicate k x) = replicate k x.
Proof. rewrite rev_alt. apply reverse_replicate. Qed.

Lemma regular_free e : regular e → contains_byte "/" e = false.
Proof. by intros (_ & _ & _ & ?). Qed.

(** What [clean_elems] keeps: some [..] elements, none in a rooted path,
    and regular elements after them. *)
Lemma clean_elems_shape rooted elems names k :
  Forall (λ e, contains_byte "/" e = false) elems →
  clean_shape rooted k names →
  ∃ k' names',
    path.clean_elems rooted elems (names ++ replicate k "..")
    = replicate k' ".." ++ names'
    ∧ clean_shape rooted k' names'.
Proof.
  revert names k; induction elems as [|e elems IH]; intros names k Hel [Hn Hk];
    cbn [path.clean_elems].
  - exists k, (rev names). rewrite rev_app_distr, rev_replicate.
    split; [done |]. split; [by apply Forall_rev | done].
  - apply Forall_cons in Hel as [He Hel].
    destruct (decide (e = "" ∨ e = ".")) as [_|Hne]; [by apply IH |].
    destruct (decide (e = "..")) as [->|Hdd].
    + destruct names as [|n names]; cbn [app].
      * destruct k as [|k]; cbn [replicate].
        -- destruct rooted.
           ++ apply (IH [] 0%nat); by repeat split.
           ++ apply (IH [] 1%nat); by repeat split.
        -- rewrite decide_True by done.
           apply (IH [] (S (S k))); [done |]. split; [done |].
           intros Hr. by specialize (Hk Hr).
      * apply Forall_cons in Hn as [Hreg Hn].
        rewrite decide_False by (by destruct Hreg as (_ & _ & ? & _)).
        by apply IH.
    + apply (IH (e :: names) k); [done |]. split; [| done].
      constructor; [| done]. repeat split; try done; intros ->; apply Hne; auto.
Qed.

(** A list of that shape comes out of [clean_elems] as it went in. *)
Lemma clean_elems_names rooted names stack :
  Forall regular names →
  path.clean_elems rooted names stack = rev stack ++ names.
Proof.
  revert stack; induction names as [|n names IH]; intros stack Hn;
    cbn [path.clean_elems].
  - by rewrite app_nil_r.
  - apply Forall_cons in Hn as [(H1 & H2 & H3 & _) Hn].
    rewrite decide_False by (by intros [|]).
    rewrite decide_False by done. rewrite IH by done.
    cbn [rev]. by rewrite <- app_assoc.
Qed.

Lemma clean_elems_dots k j names :
  Forall regular names →
  path.clean_elems false (replicate k ".." ++ names) (replicate j "..")
  = replicate (k + j) ".." ++ names.
Proof.
  intros Hn. revert j; induction k as [|k IH]; intros j.
  - cbn [replicate app Nat.add]. by rewrite clean_elems_names, rev_replicate.
  - cbn [replicate app path.clean_elems].
    rewrite decide_False by (by intros [|]). rewrite decide_True by done.
    destruct j as [|j]; cbn [replicate].
    + etrans; [apply (IH 1%nat) |].
      by replace (k + 1)%nat with (S k + 0)%nat by lia.
    + rewrite decide_True by done. etrans; [apply (IH (S (S j))) |].
      by replace (k + S (S j))%nat with (S k + S j)%nat by lia.
Qed.

Lemma clean_elems_fixed rooted k names :
  clean_shape rooted k names →
  path.clean_elems rooted (replicate k ".." ++ names) []
  = replicate k ".." ++ names.
Proof.
  intros [Hn Hk]. destruct rooted.
  - rewrite (Hk eq_refl). cbn [replicate app]. by rewrite clean_elems_names.
  - etrans; [apply (clean_elems_dots k 0 names Hn) |]. by rewrite Nat.add_0_r.
Qed.

Lemma clean_shape_free rooted k names :
  clean_shape rooted k names →
  Forall (λ e, contains_byte "/" e = false) (replicate k ".." ++ names).
Proof.
  intros [Hn _]. apply Forall_app. split.
  - by apply Forall_replicate.
  - eapply Forall_impl; [done |]. apply regular_free.
Qed.

Lemma split_on_elems c s : Forall (λ e, contains_byte c e = false) (split_on c s).
Proof.
  induction s as [|x s IH]; simpl; [by repeat constructor |].
  destruct (Ascii.eqb x c) eqn:Ex; [by constructor |].
  destruct (split_on c s) as [|y ys]; [by repeat constructor; simpl; rewrite Ex |].
  apply Forall_cons in IH as [Hy Hys]. constructor; [| done].
  simpl. by rewrite Ex.
Qed.

(** What [Clean] returns, by its elements. *)
Lemma Clean_shape p :
  path.Clean p = "."
  ∨ (∃ names, clean_shape true 0 names
              ∧ path.Clean p = "/" +:+ join "/" names)
  ∨ (∃ k names, clean_shape false k names ∧ replicate k ".." ++ names ≠ []
                ∧ path.Clean p = join "/" (replicate k ".." ++ names)).
Proof.
  unfold path.Clean. destruct p as [|c p]; [by left |]. cbv zeta.
  destruct (clean_elems_shape (Ascii.eqb c "/") (split_on "/" (String c p)) [] 0)
    as (k & names & Hkept & Hn & Hk); [apply split_on_elems | by split |].
  cbn [app replicate] in Hkept. rewrite Hkept.
  destruct (Ascii.eqb c "/") eqn:Ec.
  - right; left. rewrite (Hk eq_refl). exists names. by repeat split.
  - destruct (replicate k ".." ++ names) as [|x xs] eqn:E; [by left |].
    right; right. exists k, names. rewrite E. by repeat split.
Qed.

Lemma shape_elem rooted k names x :
  clean_shape rooted k names → x ∈ replicate k ".." ++ names →
  x ≠ "" ∧ x ≠ "." ∧ contains_byte "/" x = false.
Proof.
  intros [Hn _] [Hx | Hx]%elem_of_app.
  - by apply elem_of_replicate in Hx as [-> _].
  - rewrite Forall_forall in Hn. by destruct (Hn x Hx) as (? & ? & _ & ?).
Qed.

Lemma join_first l x xs :
  l = x :: xs → x ≠ "" → contains_byte "/" x = false →
  ∃ c rest, join "/" l = String c rest ∧ Ascii.eqb c "/" = false.
Proof.
  intros -> Hx Hfree. destruct x as [|c x]; [done |]. simpl in Hfree.
  destruct (Ascii.eqb c "/") eqn:Ec; [done |].
  exists c, (join "/" (x :: xs)). split; [| done]. by rewrite <- join_cons_String.
Qed.

Lemma clean_elems_skip rooted elems stack :
  path.clean_elems rooted ("" :: elems) stack = path.clean_elems rooted elems stack.
Proof. cbn [path.clean_elems]. by rewrite decide_True by (by left). Qed.

(** [Clean] returns a clean path. *)
Lemma Clean_idem p : path.Clean (path.Clean p) = path.Clean p.
Proof.
  destruct (Clean_shape p) as [-> | [(names & [Hn _] & ->) | (k & names & Hs & Hne & ->)]].
  - reflexivity.
  - change ("/" +:+ join "/" names) with (String "/" (join "/" names)).
    unfold path.Clean. cbv zeta. rewrite Ascii.eqb_refl.
    change (split_on "/" (String "/" (join "/" names)))
      with ("" :: split_on "/" (join "/" names)).
    destruct names as [|n names]; [reflexivity |].
    rewrite split_join; [| | done].
    + by rewrite clean_elems_skip, clean_elems_names.
    + eapply Forall_impl; [done |]. apply regular_free.
  - destruct (replicate k ".." ++ names) as [|x xs] eqn:E; [done |].
    assert (x ∈ replicate k ".." ++ names) as Hx by (rewrite E; by left).
    destruct (shape_elem _ _ _ _ Hs Hx) as (Hx1 & _ & Hx3).
    destruct (join_first (x :: xs) x xs eq_refl Hx1 Hx3) as (c & rest & Hj & Hc).
    rewrite Hj. unfold path.Clean. cbv zeta. rewrite Hc, <- Hj.
    rewrite split_join; [| rewrite <- E; by eapply clean_shape_free | done].
    rewrite <- E, clean_elems_fixed by done. by rewrite E.
Qed.

Lemma Clean_nonempty p : path.Clean p ≠ "".
Proof.
  destruct (Clean_shape p) as [-> | [(names & _ & ->) | (k & names & Hs & Hne & ->)]];
    [done | done |].
  destruct (replicate k ".." ++ names) as [|x xs] eqn:E; [done |].
  assert (x ∈ replicate k ".." ++ names) as Hx by (rewrite E; by left).
  destruct (shape_elem _ _ _ _ Hs Hx) as (Hx1 & _ & Hx3).
  destruct (join_first (x :: xs) x xs eq_refl Hx1 Hx3) as (c & rest & -> & _).
  done.
Qed.

Lemma HasSuffix_split s suf : HasSuffix s suf = true → ∃ pre, s = pre +:+ suf.
Proof.
  intros [_ Hd%bool_decide_eq_true]%andb_prop.
  exists (take (String.length s - String.length suf) s).
  transitivity (take (String.length s - String.length suf) s
                +:+ drop (String.length s - String.length suf) s);
    [by rewrite take_drop | by rewrite Hd].
Qed.

(** The last element of a path that ends in a dot element. *)
Lemma endsWithDot_last p :
  os.endsWithDot p = true → last (split_on "/" p) = Some ".".
Proof.
  unfold os.endsWithDot. intros [->%bool_decide_eq_true | Hs]%orb_prop; [done |].
  apply HasSuffix_split in Hs as [pre ->].
  change (pre +:+ "/.") with (pre +:+ String "/" ".").
  by rewrite split_on_last, last_snoc.
Qed.

(** A clean path does not end in a dot element, the path [.] apart. *)
Lemma Clean_endsWithDot p :
  os.endsWithDot (path.Clean p) = true → path.Clean p = ".".
Proof.
  intros Hdot%endsWithDot_last. revert Hdot.
  destruct (Clean_shape p) as [-> | [(names & [Hn _] & ->) | (k & names & Hs & Hne & ->)]];
    [done | |].
  - change ("/" +:+ join "/" names) with (String "/" (join "/" names)).
    change (split_on "/" (String "/" (join "/" names)))
      with ("" :: split_on "/" (join "/" names)).
    destruct names as [|n names]; [done |].
    rewrite split_join by (done || (eapply Forall_impl; [done |]; apply regular_free)).
    intros Hl%last_cons_Some_ne; [| done].
    apply last_Some in Hl as [l' Hl]. rewrite Hl in Hn.
    apply Forall_app in Hn as [_ Hd]. apply Forall_cons in Hd as [(_ & ? & _) _].
    done.
  - rewrite split_join by (done || by eapply clean_shape_free).
    intros [l' Hl]%last_Some.
    assert ("." ∈ replicate k ".." ++ names) as Hx
      by (rewrite Hl; apply elem_of_app; right; by left).
    by destruct (shape_elem _ _ _ _ Hs Hx) as (_ & ? & _).
Qed.

Lemma clean_elems_last rooted elems e stack :
  regular e → ∃ kept, path.clean_elems rooted (elems ++ [e]) stack = kept ++ [e].
Proof.
  intros (H1 & H2 & H3 & _).
  revert stack; induction elems as [|x elems IH]; intros stack;
    cbn [app path.clean_elems].
  - rewrite decide_False by (by intros [|]). rewrite decide_False by done.
    by exists (rev stack).
  - repeat case_match; apply IH.
Qed.

Lemma length_join_last sep l e :
  (String.length e <= String.length (join sep (l ++ [e])))%nat.
Proof.
  induction l as [|x l IH]; [done |].
  change ((x :: l) ++ [e]) with (x :: (l ++ [e])).
  destruct (l ++ [e]) as [|y ys] eqn:E; [by destruct l |].
  change (join sep (x :: y :: ys)) with (x +:+ sep +:+ join sep (y :: ys)).
  rewrite !length_append. lia.
Qed.

Lemma Join_last t e :
  e ≠ "" → contains_byte "/" e = false →
  ∃ l s, path.Join [t; e] = path.Clean s
         ∧ split_on "/" s = l ++ [e] ∧ s ≠ "".
Proof.
  intros Hne Hfree. unfold path.Join. cbn [filter list_filter].
  rewrite (decide_True (P := e ≠ "")) by done.
  destruct (decide (t ≠ "")) as [Ht|Ht].
  - exists (split_on "/" t), (t +:+ String "/" e). split; [done |].
    split; [by apply split_on_last |]. by destruct t.
  - exists [], e. split; [done |]. split; [by apply split_on_free | done].
Qed.

(** Joining with a regular element last gives a path at least as long as
    that element. *)
Lemma length_Join_last t e :
  regular e → (String.length e <= String.length (path.Join [t; e]))%nat.
Proof.
  intros He. pose proof He as (Hne & _ & _ & Hfree).
  destruct (Join_last t e Hne Hfree) as (l & s & -> & Hsplit & Hs).
  unfold path.Clean. destruct s as [|c s]; [done |]. cbv zeta. rewrite Hsplit.
  destruct (clean_elems_last (Ascii.eqb c "/") l e [] He) as [kept ->].
  pose proof (length_join_last "/" kept e) as Hlen.
  destruct (Ascii.eqb c "/"); [rewrite length_append; lia |].
  by destruct (kept ++ [e]) eqn:Ek; [destruct kept |].
Qed.

Lemma hexdigit_not_slash d : Ascii.eqb (hexdigit d) "/" = false.
Proof. unfold hexdigit. by repeat case_match. Qed.

Lemma hex_slash_free digits n acc :
  contains_byte "/" acc = false → contains_byte "/" (hex digits n acc) = false.
Proof.
  revert n acc; induction digits as [|k IH]; intros n acc Hacc; simpl; [done |].
  apply IH. simpl. by rewrite hexdigit_not_slash.
Qed.

Lemma tempname_regular buf : regular (tempname buf).
Proof.
  unfold tempname. repeat split; try done.
  rewrite contains_byte_append. by rewrite (hex_slash_free 16 buf "").
Qed.

(** The directory names that [add] makes are clean paths that [RemoveAll]
    takes. *)
Lemma Join_tempname t buf :
  path.Clean (path.Join [t; tempname buf]) = path.Join [t; tempname buf]
  ∧ path.Join [t; tempname buf] ≠ ""
  ∧ os.endsWithDot (path.Join [t; tempname buf]) = false.
Proof.
  pose proof (length_Join_last t _ (tempname_regular buf)) as Hlen.
  pose proof (tempname_regular buf) as (Hne & _ & _ & Hfree).
  destruct (Join_last t _ Hne Hfree) as (l & s & Hj & _).
  rewrite Hj in *. split; [apply Clean_idem |]. split; [apply Clean_nonempty |].
  destruct (os.endsWithDot _) eqn:E; [| done].
  apply Clean_endsWithDot in E. rewrite E in Hlen.
  unfold tempname in Hlen. rewrite length_append in Hlen. simpl in Hlen. lia.
Qed.

(** ** The disk along a call of [add] *)

Lemma mkdirs_spec f dirs f' :
  os.mkdirs f dirs = (None, f') →
  (∀ x, x ∈ dirs → f' !! x = Some Dir) ∧ (∀ p, p ∉ dirs → f' !! p = f !! p).
Proof.
  revert f; induction dirs as [|x dirs IH]; intros f; cbn [os.mkdirs].
  - intros [= <-]. split; [by intros x Hx%elem_of_nil | done].
  - destruct (contains_byte NUL x); [done |].
    destruct (f !! x) as [[|?]|] eqn:E; [| done |]; intros [Hd Ho]%IH; split.
    + intros y [-> | Hy]%elem_of_cons; [| by apply Hd].
      destruct (decide (x ∈ dirs)); [by apply Hd |]. by rewrite Ho.
    + intros p [Hp Hp']%not_elem_of_cons. by apply Ho.
    + intros y [-> | Hy]%elem_of_cons; [| by apply Hd].
      destruct (decide (x ∈ dirs)); [by apply Hd |].
      by rewrite Ho, lookup_insert_eq.
    + intros p [Hp Hp']%not_elem_of_cons. by rewrite Ho, lookup_insert_ne.
Qed.

Lemma MkdirAll_mkdirs w p w' :
  os.MkdirAll w p = (None, w') →
  os.mkdirs (fs w) (path.ancestors p ++ [p]) = (None, fs w').
Proof.
  unfold os.MkdirAll.
  destruct (if contains_byte NUL p then None else refuse w SysMkdir p);
    [done |].
  destruct (os.mkdirs _ _) as [[e|] f']; [done |]. by intros [= <-].
Qed.

Lemma Setenv_fs w key v : fs (os.Setenv w key v).2 = fs w.
Proof. unfold os.Setenv. by repeat case_match. Qed.

Lemma add_step_disk a w0 w pc :
  add_files a w0 w pc → add_disk a w0 w pc →
  add_disk a w0 (add_step a w pc).1 (add_step a w pc).2.
Proof.
  destruct pc as [| |d|d|d f|d f t|d|d err];
    intros (_ & _ & _ & H) Hdisk; unfold add_step.
  - by destruct (running w !! name a).
  - unfold rand_Read. cbv zeta. by destruct (os.IsNotExist _).
  - destruct (os.MkdirAll w d) as [[e|] w'] eqn:E; [done |].
    apply MkdirAll_mkdirs in E. pose proof (mkdirs_last _ _ _ _ E) as [_ Hnul].
    apply mkdirs_spec in E as [Hd Ho]. simpl in *.
    split; [done |]. split; [done |].
    intros p _ Hp. by rewrite Ho, Hdisk.
  - destruct Hdisk as (Hnul & Hd & Ho).
    pose proof (OpenFile_spec w (path.Join [d; name a])) as Hopen.
    destruct (os.OpenFile w _) as [e|[f w']]; [done |].
    destruct Hopen as (-> & _ & _ & _ & _ & Hnd & Hfs). simpl.
    split; [done |]. split.
    + intros x Hx. rewrite Hfs, lookup_insert_ne; [by apply Hd |].
      intros <-. by rewrite (Hd _ Hx) in Hnd.
    + intros p Hp Hp'. rewrite Hfs, lookup_insert_ne by done. by apply Ho.
  - by rewrite Parse_source.
  - destruct H as (_ & _ & _ & -> & Hf & _). destruct Hdisk as (Hnul & Hd & Ho).
    cbv zeta.
    pose proof (Execute_spec t (path.Join [d; name a])
                  (<["output" := VString (stdout a)]>
                     (<["erroutput" := VString (stderr a)]>
                        (<["status" := VInt (status a)]> ∅))) w "" Hf)
      as (_ & _ & Hx).
    destruct (template.Execute _ _ _ w) as [[e|] w']; cbn [fst snd] in *;
      [done |].
    destruct Hx as [_ Hq]. split; [done |]. split.
    + intros x Hx. rewrite Hq; [by apply Hd |].
      intros ->. by rewrite (Hd _ Hx) in Hf.
    + intros p Hp Hp'. rewrite Hq by done. by apply Ho.
  - cbv zeta. pose proof (Setenv_fs w "PATH" (d +:+ ":" +:+ os.Getenv w "PATH")) as Hfs.
    destruct (os.Setenv w "PATH" _) as [e w']. simpl in *. by rewrite Hfs.
  - done.
Qed.

Lemma add_disk_return fuel w name stdout stderr status tempdir err w' :
  add fuel w name stdout stderr status = Some (tempdir, err, w') →
  add_files (mkArgs name stdout stderr status) w w' (AReturn tempdir err)
  ∧ add_disk (mkArgs name stdout stderr status) w w' (AReturn tempdir err).
Proof.
  intros Hadd.
  apply (add_from_invariant
           (λ w1 pc, add_files (mkArgs name stdout stderr status) w w1 pc
                     ∧ add_disk (mkArgs name stdout stderr status) w w1 pc)
           (mkArgs name stdout stderr status)) with fuel w APoll; [| | done].
  - intros w1 pc [Hf Hd]. split; [by apply add_step_files |].
    by apply add_step_disk.
  - split; [apply add_files_start | done].
Qed.

Lemma walk_dirs f dirs :
  os.walk f dirs = None ↔ ∀ x, x ∈ dirs → f !! x = Some Dir.
Proof.
  induction dirs as [|d dirs IH]; cbn [os.walk].
  - split; [by intros _ x Hx%elem_of_nil | done].
  - destruct (f !! d) as [[|?]|] eqn:E.
    + rewrite IH. split.
      * intros H x [-> | Hx]%elem_of_cons; [done | by apply H].
      * intros H x Hx. apply H, elem_of_cons. by right.
    + split; [done |]. intros H.
      specialize (H d ltac:(by apply elem_of_cons; left)). congruence.
    + split; [done |]. intros H.
      specialize (H d ltac:(by apply elem_of_cons; left)). congruence.
Qed.

(** A call of add that returns no error has changed nothing on disk but the
    script file, the returned directory and the ancestors of that directory,
    and these last are directories. *)
Theorem add_touches_only fuel w name stdout stderr status tempdir w' :
  add fuel w name stdout stderr status = Some (tempdir, None, w') →
  (∀ x, x ∈ path.ancestors tempdir ++ [tempdir] → fs w' !! x = Some Dir)
  ∧ (∀ p, p ≠ path.Join [tempdir; name] →
          p ∉ path.ancestors tempdir ++ [tempdir] → fs w' !! p = fs w !! p).
Proof. intros Hadd. by apply add_disk_return in Hadd as [_ (_ & Hdisk)]. Qed.

Lemma add_touches_only_witness :
  (∀ x, x ∈ path.ancestors "/tmp/commandmocker-00000000000000ff"
            ++ ["/tmp/commandmocker-00000000000000ff"] →
        fs world_after_add !! x = Some Dir)
  ∧ (∀ p, p ≠ path.Join ["/tmp/commandmocker-00000000000000ff"; "ssh"] →
          p ∉ path.ancestors "/tmp/commandmocker-00000000000000ff"
              ++ ["/tmp/commandmocker-00000000000000ff"] →
          fs world_after_add !! p = fs (fresh_world no_refusal) !! p).
Proof.
  exact (add_touches_only 8 (fresh_world no_refusal) "ssh" "" "HELP!" 1 _ _
           add_example).
Defined.
(** ** More on [Remove] *)

Lemma filter_below (f : gmap string node) p q :
  filter (λ kv : string * node, os.below p kv.1 = false) f !! q
  = if os.below p q then None else f !! q.
Proof.
  rewrite map_lookup_filter.
  destruct (f !! q) as [n|]; simpl; [| by destruct (os.below p q)].
  destruct (os.below p q); by case_guard.
Qed.

(** [RemoveAll] of a clean path with a clear way to it. *)
Lemma RemoveAll_clean w p :
  path.Clean p = p → p ≠ "." →
  nul_free p → refuse w SysRemove p = None →
  os.walk (fs w) (path.ancestors p) = None →
  os.RemoveAll w p
  = (None, set_fs w (filter (λ kv, os.below p kv.1 = false) (fs w))).
Proof.
  intros Hclean Hdot Hnul Hrm Hwalk. unfold os.RemoveAll.
  rewrite decide_False by (rewrite <- Hclean; apply Clean_nonempty).
  destruct (os.endsWithDot p) eqn:E.
  { rewrite <- Hclean in E. apply Clean_endsWithDot in E. by rewrite Hclean in E. }
  rewrite (proj2 (denied_None _ _ _)) by done. cbv zeta. by rewrite Hclean, Hwalk.
Qed.

Lemma Remove_deferred_key w tempdir :
  ∃ k, running (Remove_deferred w tempdir) = delete k (running w)
       ∧ (running w !! k = Some tempdir
          ∨ (k = "" ∧ ∀ k', running w !! k' ≠ Some tempdir)).
Proof.
  unfold Remove_deferred, range_last. eexists. split; [done |].
  destruct (range_last_spec (range_order w) tempdir "")
    as [Hin | [Heq Hnone]].
  - left. by apply elem_of_rotate, elem_of_map_to_list in Hin.
  - right. split; [done |]. intros k' Hk'. apply (Hnone k').
    by apply elem_of_rotate, elem_of_map_to_list.
Qed.

Lemma RemoveAll_mapstart w p : mapstart (os.RemoveAll w p).2 = mapstart w.
Proof. unfold os.RemoveAll. by repeat case_match. Qed.

Lemma Remove_body_mapstart w tempdir :
  mapstart (Remove_body w tempdir).2 = mapstart w.
Proof.
  unfold Remove_body. destruct (negb _); [done |]. cbv zeta.
  destruct (_ <? 0); [done |].
  destruct (slice_to _ _); [| done]. destruct (slice_from _ _); [| done].
  rewrite Setenv_PATH. destruct (contains_byte NUL _); [done |].
  pose proof (RemoveAll_mapstart
                (set_environ w (<["PATH" := s +:+ s0]> (environ w))) tempdir)
    as Hm.
  by destruct (os.RemoveAll _ tempdir).
Qed.

Lemma Remove_running w tempdir :
  running (Remove w tempdir).2
  = running (Remove_deferred w tempdir).
Proof.
  unfold Remove. pose proof (Remove_body_running w tempdir) as Hr.
  pose proof (Remove_body_mapstart w tempdir) as Hm.
  destruct (Remove_body w tempdir) as [r w1]; simpl in *.
  unfold Remove_deferred, range_order; simpl. by rewrite Hr, Hm.
Qed.

(** Remove leaves alone every registry entry that has another directory as
    its value and a name that is not empty. *)
Theorem Remove_keeps_other_entries w tempdir key v :
  running w !! key = Some v → v ≠ tempdir → key ≠ "" →
  running (Remove w tempdir).2 !! key = Some v.
Proof.
  intros Hkey Hv Hne. rewrite Remove_running.
  destruct (Remove_deferred_key w tempdir) as (k & -> & [Hk | [-> _]]).
  - rewrite lookup_delete_ne; [done |]. intros ->. congruence.
  - by rewrite lookup_delete_ne.
Qed.

Lemma Remove_keeps_other_entries_witness :
  running (world_with "/usr/bin") !! "ssh" = Some "/tmp/a"
  ∧ running (Remove (world_with "/usr/bin") "/etc").2 !! "ssh" = Some "/tmp/a".
Proof.
  split; [reflexivity |].
  by apply (Remove_keeps_other_entries (world_with "/usr/bin") "/etc" "ssh" "/tmp/a").
Defined.

(** When no registry entry has the directory as its value, the key that the
    deferred function of Remove deletes is the empty string: an entry under
    the empty name goes, whatever its directory, and nothing else. *)
Theorem Remove_unmatched w tempdir :
  (∀ k, running w !! k ≠ Some tempdir) →
  running (Remove w tempdir).2 = delete "" (running w).
Proof.
  intros Hnone. rewrite Remove_running.
  destruct (Remove_deferred_key w tempdir) as (k & -> & [Hk | [-> _]]); [| done].
  by destruct (Hnone k).
Qed.

Lemma Remove_unmatched_witness :
  (∀ k, running world_with_empty_name !! k ≠ Some "/etc")
  ∧ running (Remove world_with_empty_name "/etc").2 = ∅.
Proof.
  assert (∀ k, running world_with_empty_name !! k ≠ Some "/etc") as Hnone.
  { intros k. unfold world_with_empty_name; simpl.
    by intros [_ [=]]%lookup_singleton_Some. }
  split; [exact Hnone |].
  rewrite (Remove_unmatched world_with_empty_name "/etc" Hnone). reflexivity.
Defined.

Lemma slice_from_past s lo : len s < lo → slice_from s lo = None.
Proof.
  intros Hlo. unfold slice_from.
  by rewrite (proj2 (Z.leb_gt _ _) Hlo), andb_false_r.
Qed.

Lemma Index_Some sub s n : index_of sub s = Some n → Index s sub = Z.of_nat n.
Proof. unfold Index. by intros ->. Qed.

Lemma index_of_prefix sub rest : index_of sub (sub +:+ rest) = Some O.
Proof. by rewrite index_of_eq, prefix_append. Qed.

(** The body of [Remove] when the directory is found with nothing after it. *)
Lemma Remove_body_at_end w tempdir pre :
  HasPrefix tempdir (os.TempDir w) = true →
  os.Getenv w "PATH" = pre +:+ tempdir →
  Index (os.Getenv w "PATH") tempdir = len pre →
  Remove_body w tempdir = (Panicked, w).
Proof.
  intros Htmp Hpath Hidx. unfold Remove_body. rewrite Htmp, Hidx. simpl negb. cbv iota.
  rewrite (proj2 (Z.ltb_ge _ _)) by apply len_nonneg.
  rewrite Hpath at 1. rewrite slice_to_append.
  rewrite slice_from_past; [done |].
  rewrite Hpath. unfold len. rewrite length_append. lia.
Qed.

Lemma Remove_fst w tempdir : (Remove w tempdir).1 = (Remove_body w tempdir).1.
Proof. unfold Remove. by destruct (Remove_body w tempdir). Qed.

Lemma Remove_body_found_returns w tempdir pre c post :
  HasPrefix tempdir (os.TempDir w) = true →
  os.Getenv w "PATH" = pre +:+ tempdir +:+ String c post →
  Index (os.Getenv w "PATH") tempdir = len pre →
  ∃ err, (Remove_body w tempdir).1 = Returned err.
Proof.
  intros Htmp Hpath Hidx. rewrite (Remove_body_found _ _ _ _ _ Htmp Hpath Hidx).
  destruct (os.Setenv w "PATH" _) as [[e|] w1]; [by eexists |].
  destruct (os.RemoveAll w1 tempdir) as [e w2]. by eexists.
Qed.

(** Remove panics exactly when the directory has the temporary root as
    prefix and its first occurrence in the search path is at the very end,
    with no byte after it; the environment and the disk are then as they
    were. *)
Theorem Remove_panics_iff w tempdir :
  ((Remove w tempdir).1 = Panicked
   ↔ HasPrefix tempdir (os.TempDir w) = true
     ∧ ∃ pre, os.Getenv w "PATH" = pre +:+ tempdir
              ∧ Index (os.Getenv w "PATH") tempdir = len pre)
  ∧ ((Remove w tempdir).1 = Panicked →
     environ (Remove w tempdir).2 = environ w ∧ fs (Remove w tempdir).2 = fs w).
Proof.
  assert (HasPrefix tempdir (os.TempDir w) = true →
          ∀ pre, os.Getenv w "PATH" = pre +:+ tempdir →
                 Index (os.Getenv w "PATH") tempdir = len pre →
                 Remove w tempdir = (Panicked, Remove_deferred w tempdir)) as Hend.
  { intros Htmp pre Hpath Hidx. unfold Remove.
    by rewrite (Remove_body_at_end _ _ _ Htmp Hpath Hidx). }
  assert ((Remove w tempdir).1 = Panicked →
          HasPrefix tempdir (os.TempDir w) = true
          ∧ ∃ pre, os.Getenv w "PATH" = pre +:+ tempdir
                   ∧ Index (os.Getenv w "PATH") tempdir = len pre) as Hpanic.
  { rewrite Remove_fst. intros Hp.
    destruct (HasPrefix tempdir (os.TempDir w)) eqn:Htmp;
      [| by unfold Remove_body in Hp; rewrite Htmp in Hp].
    split; [done |].
    destruct (index_of tempdir (os.Getenv w "PATH")) as [n|] eqn:E;
      [| by unfold Remove_body, Index in Hp; rewrite Htmp, E in Hp].
    destruct (index_of_Some _ _ _ E) as (pre & post & Hpath & <-).
    apply Index_Some in E. destruct post as [|c post].
    - exists pre. by rewrite append_nil_r in Hpath.
    - destruct (Remove_body_found_returns _ _ _ _ _ Htmp Hpath E) as [err Herr].
      by rewrite Herr in Hp. }
  split; [split; [exact Hpanic |] |].
  - intros (Htmp & pre & Hpath & Hidx). by rewrite (Hend Htmp pre Hpath Hidx).
  - intros Hp. destruct (Hpanic Hp) as (Htmp & pre & Hpath & Hidx).
    by rewrite (Hend Htmp pre Hpath Hidx).
Qed.

Lemma Remove_panics_iff_witness :
  (Remove (world_with "/usr/bin:/tmp/a") "/tmp/a").1 = Panicked.
Proof.
  apply (proj2 (proj1 (Remove_panics_iff (world_with "/usr/bin:/tmp/a") "/tmp/a"))).
  split; [reflexivity |]. exists "/usr/bin:". split; reflexivity.
Defined.

(** What [Remove] does when all goes well, as a world. *)
Lemma Remove_found_ok w tempdir pre c post :
  HasPrefix tempdir (os.TempDir w) = true →
  os.Getenv w "PATH" = pre +:+ tempdir +:+ String c post →
  Index (os.Getenv w "PATH") tempdir = len pre →
  nul_free (pre +:+ post) →
  refuse w SysRemove tempdir = None →
  path.Clean tempdir = tempdir → tempdir ≠ "." → nul_free tempdir →
  os.walk (fs w) (path.ancestors tempdir) = None →
  ∃ w', Remove w tempdir = (Returned None, w')
        ∧ environ w' = <["PATH" := pre +:+ post]> (environ w)
        ∧ running w' = running (Remove_deferred w tempdir)
        ∧ ∀ q, fs w' !! q = if os.below tempdir q then None else fs w !! q.
Proof.
  intros Htmp Hpath Hidx Hnul Hrm Hclean Hdot Hfree Hwalk. unfold Remove.
  rewrite (Remove_body_found _ _ _ _ _ Htmp Hpath Hidx), Setenv_PATH, Hnul.
  rewrite RemoveAll_clean by done.
  eexists. split; [done |]. repeat split. intros q. simpl. apply filter_below.
Qed.

(** When the directory is an absolute clean path other than the root, with
    directories all the way to it, has the temporary root as prefix and
    first occurs in the search path after [pre] with at least one byte [c]
    after it, the search path has no NUL byte and the system lets the
    directory be deleted, Remove returns no error: the search path loses the
    directory and the byte [c], colon or not, everything at or below the
    directory is gone from the disk and every other file is as it was. *)
Theorem Remove_cuts w tempdir pre c post :
  path.Clean tempdir = tempdir →
  HasPrefix tempdir "/" = true →
  tempdir ≠ "/" →
  os.walk (fs w) (path.ancestors tempdir) = None →
  HasPrefix tempdir (os.TempDir w) = true →
  os.Getenv w "PATH" = pre +:+ tempdir +:+ String c post →
  Index (os.Getenv w "PATH") tempdir = len pre →
  nul_free (os.Getenv w "PATH") →
  refuse w SysRemove tempdir = None →
  (Remove w tempdir).1 = Returned None
  ∧ os.Getenv (Remove w tempdir).2 "PATH" = pre +:+ post
  ∧ ∀ q, fs (Remove w tempdir).2 !! q
         = if os.below tempdir q then None else fs w !! q.
Proof.
  intros Hclean Habs Hroot Hwalk Htmp Hpath Hidx Hnul Hrm.
  unfold nul_free in Hnul. rewrite Hpath, !contains_byte_append in Hnul.
  apply orb_false_elim in Hnul as [Hpre [Hdir Hpost]%orb_false_elim].
  simpl in Hpost. destruct (Ascii.eqb c NUL); [done |].
  assert (nul_free (pre +:+ post)) as Hrest
    by (unfold nul_free; by rewrite contains_byte_append, Hpre, Hpost).
  assert (tempdir ≠ ".") as Hdot by (by intros ->).
  destruct (Remove_found_ok _ _ _ _ _ Htmp Hpath Hidx Hrest Hrm Hclean Hdot
              Hdir Hwalk) as (w' & -> & Henv & _ & Hfs).
  split; [done |]. split; [| done]. unfold os.Getenv; simpl.
  by rewrite Henv, lookup_insert_eq.
Qed.

Lemma Remove_cuts_witness :
  HasPrefix "/tmp/a" (os.TempDir (world_with "/bin:/tmp/a/x:/usr/bin")) = true
  ∧ (Remove (world_with "/bin:/tmp/a/x:/usr/bin") "/tmp/a").1 = Returned None
  ∧ os.Getenv (Remove (world_with "/bin:/tmp/a/x:/usr/bin") "/tmp/a").2 "PATH"
    = "/bin:" +:+ "x:/usr/bin"
  ∧ ∀ q, fs (Remove (world_with "/bin:/tmp/a/x:/usr/bin") "/tmp/a").2 !! q
         = if os.below "/tmp/a" q then None
           else fs (world_with "/bin:/tmp/a/x:/usr/bin") !! q.
Proof.
  split; [reflexivity |].
  apply (Remove_cuts (world_with "/bin:/tmp/a/x:/usr/bin") "/tmp/a"
           "/bin:" "/" "x:/usr/bin"); done || reflexivity.
Defined.

Lemma TempDir_other_keys w w' :
  (∀ key, key ≠ "PATH" → environ w' !! key = environ w !! key) →
  os.TempDir w' = os.TempDir w.
Proof. intros Hk. unfold os.TempDir, os.Getenv. by rewrite Hk. Qed.

(** Remove undoes add: after a call of add that returned no error, Remove of
    the returned directory returns no error, the search path and the
    registry are what they were before the add, and nothing is left on disk
    at or below the directory.  The directory has to have the temporary root
    as a prefix of its name, the system has to let it be deleted, and no
    other name may have been registered with it. *)
Theorem Remove_undoes_add fuel w name stdout stderr status tempdir w1 :
  env_wf w →
  add fuel w name stdout stderr status = Some (tempdir, None, w1) →
  HasPrefix tempdir (os.TempDir w) = true →
  refuse w SysRemove tempdir = None →
  (∀ k, running w !! k ≠ Some tempdir) →
  (Remove w1 tempdir).1 = Returned None
  ∧ os.Getenv (Remove w1 tempdir).2 "PATH" = os.Getenv w "PATH"
  ∧ running (Remove w1 tempdir).2 = running w
  ∧ ∀ q, os.below tempdir q = true → fs (Remove w1 tempdir).2 !! q = None.
Proof.
  intros Hwf Hadd Htmp Hrm Huniq.
  pose proof (add_from_invariant (on_track w) _
                (λ w' pc, add_step_on_track _ w w' pc Hwf)
                fuel w APoll tempdir None w1 eq_refl Hadd) as Hpath.
  cbn [on_track] in Hpath.
  apply add_disk_return in Hadd as [(Hr & _ & Hk & Hb & _) (Hnul & Hdirs & _)].
  destruct Hb as (Hfree & Hrun & (buf & _ & Hjoin) & _). simpl in Hfree, Hrun.
  destruct (Join_tempname (os.TempDir w) buf) as (Hclean & _ & Hdot).
  rewrite <- Hjoin in Hclean, Hdot.
  assert (tempdir ≠ ".") as Hnd by (by intros ->).
  assert (os.walk (fs w1) (path.ancestors tempdir) = None) as Hwalk.
  { apply walk_dirs. intros x Hx. apply Hdirs, elem_of_app. by left. }
  rewrite <- (TempDir_other_keys w w1 Hk) in Htmp. rewrite <- Hr in Hrm.
  assert (Index (os.Getenv w1 "PATH") tempdir = len "") as Hidx
    by (rewrite Hpath; apply Index_Some, index_of_prefix).
  destruct (Remove_found_ok w1 tempdir "" ":" (os.Getenv w "PATH") Htmp Hpath Hidx
              (Getenv_nul_free w "PATH" Hwf) Hrm Hclean Hnd Hnul Hwalk)
    as (w2 & -> & Henv & Hreg & Hfs).
  split; [done |]. split; [| split].
  - unfold os.Getenv at 1; simpl. by rewrite Henv, lookup_insert_eq.
  - simpl. rewrite Hreg.
    destruct (Remove_deferred_key w1 tempdir) as (k & -> & [Hk1 | [_ Hnone]]).
    + rewrite Hrun in *. destruct (decide (k = name)) as [->|Hne].
      * by rewrite delete_insert_eq, delete_id.
      * rewrite lookup_insert_ne in Hk1 by done. by destruct (Huniq k).
    + destruct (Hnone name). by rewrite Hrun, lookup_insert_eq.
  - intros q Hq. simpl. by rewrite Hfs, Hq.
Qed.

Lemma Remove_undoes_add_witness :
  env_wf (fresh_world no_refusal)
  ∧ (Remove world_after_add "/tmp/commandmocker-00000000000000ff").1 = Returned None
  ∧ os.Getenv (Remove world_after_add "/tmp/commandmocker-00000000000000ff").2 "PATH"
    = os.Getenv (fresh_world no_refusal) "PATH"
  ∧ running (Remove world_after_add "/tmp/commandmocker-00000000000000ff").2
    = running (fresh_world no_refusal)
  ∧ ∀ q, os.below "/tmp/commandmocker-00000000000000ff" q = true →
         fs (Remove world_after_add "/tmp/commandmocker-00000000000000ff").2 !! q
         = None.
Proof.
  split; [apply fresh_world_wf |].
  apply (Remove_undoes_add 8 (fresh_world no_refusal) "ssh" "" "HELP!" 1 _ _
           (fresh_world_wf no_refusal) add_example); [reflexivity | reflexivity |].
  intros k. unfold fresh_world; simpl. by rewrite lookup_empty.
Defined.

(** Remove does not undo every add.  When the directory that add returned
    does not start with what os.TempDir returns, as happens when TMPDIR is
    not a clean path, Remove returns the invalid-target error and leaves the
    environment and the disk as add left them; the registry entry goes all
    the same. *)
Theorem Remove_refuses_add fuel w name stdout stderr status tempdir w1 :
  add fuel w name stdout stderr status = Some (tempdir, None, w1) →
  HasPrefix tempdir (os.TempDir w) = false →
  (∀ k, running w !! k ≠ Some tempdir) →
  (Remove w1 tempdir).1 = Returned (Some (InvalidTarget tempdir))
  ∧ environ (Remove w1 tempdir).2 = environ w1
  ∧ fs (Remove w1 tempdir).2 = fs w1
  ∧ running (Remove w1 tempdir).2 = running w.
Proof.
  intros Hadd Htmp Huniq.
  apply add_files_return in Hadd as (_ & _ & Hk & Hb & _).
  destruct Hb as (Hfree & Hrun & _ & _). simpl in Hfree, Hrun.
  rewrite <- (TempDir_other_keys w w1 Hk) in Htmp.
  assert (Remove_body w1 tempdir = (Returned (Some (InvalidTarget tempdir)), w1))
    as Hbody by (unfold Remove_body; by rewrite Htmp).
  unfold Remove. rewrite Hbody. cbn [fst snd].
  split; [done |]. split; [done |]. split; [done |].
  destruct (Remove_deferred_key w1 tempdir) as (k & -> & [Hk1 | [_ Hnone]]).
  - rewrite Hrun in *. destruct (decide (k = name)) as [->|Hne].
    + by rewrite delete_insert_eq, delete_id.
    + rewrite lookup_insert_ne in Hk1 by done. by destruct (Huniq k).
  - destruct (Hnone name). by rewrite Hrun, lookup_insert_eq.
Qed.

Lemma add_unclean_example :
  add 8 world_unclean_tmpdir "ssh" "" "HELP!" 1
  = Some ("/tmp/commandmocker-00000000000000ff", None, world_after_add_unclean).
Proof. vm_compute. reflexivity. Qed.

Lemma Remove_refuses_add_witness :
  (Remove world_after_add_unclean "/tmp/commandmocker-00000000000000ff").1
  = Returned (Some (InvalidTarget "/tmp/commandmocker-00000000000000ff"))
  ∧ environ (Remove world_after_add_unclean
               "/tmp/commandmocker-00000000000000ff").2
    = environ world_after_add_unclean
  ∧ fs (Remove world_after_add_unclean "/tmp/commandmocker-00000000000000ff").2
    = fs world_after_add_unclean
  ∧ running (Remove world_after_add_unclean
               "/tmp/commandmocker-00000000000000ff").2
    = running world_unclean_tmpdir.
Proof.
  apply (Remove_refuses_add 8 world_unclean_tmpdir "ssh" "" "HELP!" 1 _ _
           add_unclean_example); [reflexivity |].
  intros k. unfold world_unclean_tmpdir; simpl. by rewrite lookup_empty.
Defined.

(** ** The logs of an instance directory *)

Lemma ancestors_from_leaf before leaf :
  contains_byte "/" leaf = false → path.ancestors_from before leaf = [].
Proof.
  revert before; induction leaf as [|c leaf IH]; intros before; simpl; [done |].
  destruct (Ascii.eqb c "/"); [done | apply IH].
Qed.

Lemma ancestors_from_dir before d rest :
  path.ancestors_from before (d +:+ String "/" rest)
  = path.ancestors_from before d
    ++ (if decide (before +:+ d = "") then [] else [before +:+ d])
    ++ path.ancestors_from (before +:+ d +:+ "/") rest.
Proof.
  revert before; induction d as [|c d IH]; intros before.
  - simpl. by rewrite append_nil_r.
  - change (String c d +:+ String "/" rest) with (String c (d +:+ String "/" rest)).
    cbn [path.ancestors_from]. destruct (Ascii.eqb c "/") eqn:Ec.
    + apply Ascii.eqb_eq in Ec as ->. rewrite IH, !append_assoc.
      change ("/" +:+ d) with (String "/" d). by rewrite <- !app_assoc.
    + rewrite IH, !append_assoc. done.
Qed.

Lemma ancestors_log d leaf :
  leaf ∈ logs → path.ancestors (d +:+ "/" +:+ leaf) = path.ancestors (d +:+ "/.params").
Proof.
  intros Hleaf. unfold path.ancestors.
  change (d +:+ "/" +:+ leaf) with (d +:+ String "/" leaf).
  change (d +:+ "/.params") with (d +:+ String "/" ".params").
  rewrite !ancestors_from_dir. f_equal. f_equal.
  rewrite !ancestors_from_leaf; [done | done |].
  unfold logs in Hleaf.
  repeat (apply elem_of_cons in Hleaf as [-> | Hleaf]; [done |]).
  by apply elem_of_nil in Hleaf.
Qed.

Lemma log_path_not_root d leaf : leaf ∈ logs → d +:+ "/" +:+ leaf ≠ "/".
Proof.
  intros Hleaf Heq%(f_equal String.length). rewrite length_append in Heq.
  unfold logs in Hleaf.
  repeat (apply elem_of_cons in Hleaf as [-> | Hleaf]; [simpl in Heq; lia |]).
  by apply elem_of_nil in Hleaf.
Qed.

Lemma log_paths_differ d leaf leaf' :
  leaf ≠ leaf' → d +:+ "/" +:+ leaf ≠ d +:+ "/" +:+ leaf'.
Proof. intros Hne Heq%append_inj_l. by simplify_eq/=. Qed.

Lemma logs_out : ".out" ∈ logs.
Proof. set_solver. Qed.


Lemma logs_params : ".params" ∈ logs.
Proof. set_solver. Qed.

Lemma logs_ran : ".ran" ∈ logs.
Proof. set_solver. Qed.

Lemma logs_envs : ".envs" ∈ logs.
Proof. set_solver. Qed.


(** One append to a log, seen from any log of the directory. *)
Lemma append_log_any f d leaf leaf' data f' :
  leaf ∈ logs → leaf' ∈ logs →
  script.append f (d +:+ "/" +:+ leaf) data = Some f' →
  os.walk f (path.ancestors (d +:+ "/" +:+ leaf')) = None
  ∧ os.walk f' (path.ancestors (d +:+ "/" +:+ leaf')) = None
  ∧ f !! (d +:+ "/" +:+ leaf) ≠ Some Dir
  ∧ f' !! (d +:+ "/" +:+ leaf)
    = Some (File (content f (d +:+ "/" +:+ leaf) +:+ data))
  ∧ (leaf' ≠ leaf → f' !! (d +:+ "/" +:+ leaf') = f !! (d +:+ "/" +:+ leaf')).
Proof.
  intros Hleaf Hleaf' Happ.
  destruct (append_log f d leaf data f' Hleaf Happ) as [Hw _].
  assert (f !! (d +:+ "/" +:+ leaf) ≠ Some Dir) as Hnd.
  { intros Hd. unfold script.append in Happ.
    destruct (os.walk f _); [done |]. by rewrite Hd in Happ. }
  apply append_spec in Happ as [Hwalk ->].
  rewrite (ancestors_log d leaf') by done.
  rewrite (ancestors_log d leaf) in Hwalk by done.
  rewrite Hw. repeat split; try done.
  - by rewrite lookup_insert_eq.
  - intros Hne. rewrite lookup_insert_ne; [done |]. by apply log_paths_differ.
Qed.



Lemma params_loop_walk d args f f' :
  script.params_loop f d args = (f', true) →
  os.walk f (path.ancestors (d +:+ "/.params")) = None →
  os.walk f' (path.ancestors (d +:+ "/.params")) = None.
Proof.
  revert f; induction args as [|a args IH]; intros f; cbn [script.params_loop].
  - by intros [= <-].
  - destruct (script.append f _ _) as [f1|] eqn:E; [| done]. intros Hloop _.
    apply (IH _ Hloop).
    by destruct (append_log_any f d ".params" ".params" _ f1
                   logs_params logs_params E) as (_ & ? & _).
Qed.





(** ** What the accessors read after runs of the script *)








(** An output that echo takes as options is not logged. *)
Example Output_of_an_option :
  (script.run "-n" 0 "" "/tmp/a" [] (fs (world_with "/usr/bin"))).2 = Some 0
  ∧ Output
      (set_fs (world_with "/usr/bin")
         (script.run "-n" 0 "" "/tmp/a" [] (fs (world_with "/usr/bin"))).1)
      "/tmp/a" = "".
Proof. split; reflexivity. Qed.







(** ** A mock that has not run *)

Lemma ancestors_from_length before rest x :
  x ∈ path.ancestors_from before rest →
  (String.length x < String.length before + String.length rest)%nat.
Proof.
  revert before; induction rest as [|c rest IH]; intros before; simpl;
    [by intros ?%elem_of_nil |].
  destruct (Ascii.eqb c "/").
  - intros [Hx | Hx]%elem_of_app.
    + case_decide; [by apply elem_of_nil in Hx |].
      apply list_elem_of_singleton in Hx as ->. lia.
    + apply IH in Hx. rewrite length_append in Hx. simpl in Hx. lia.
  - intros Hx%IH. rewrite length_append in Hx. simpl in Hx. lia.
Qed.

Lemma ancestors_log_dirs d leaf :
  leaf ∈ logs → d ≠ "" →
  path.ancestors (d +:+ "/" +:+ leaf) = path.ancestors d ++ [d].
Proof.
  intros Hleaf Hd. rewrite (ancestors_log d leaf Hleaf). unfold path.ancestors.
  change (d +:+ "/.params") with (d +:+ String "/" ".params").
  rewrite ancestors_from_dir. simpl. case_decide; [done |].
  by rewrite app_nil_r.
Qed.

Lemma log_not_dirs d leaf :
  d +:+ "/" +:+ leaf ∉ path.ancestors d ++ [d].
Proof.
  intros [Hx | Hx]%elem_of_app.
  - apply ancestors_from_length in Hx. rewrite !length_append in Hx.
    simpl in Hx. lia.
  - apply list_elem_of_singleton, (f_equal String.length) in Hx.
    rewrite !length_append in Hx. simpl in Hx. lia.
Qed.

Lemma Join_log_nonempty d leaf :
  leaf ∈ logs → path.Join [d; leaf] = d +:+ "/" +:+ leaf → d ≠ "".
Proof.
  intros Hleaf Hjoin ->. unfold logs in Hleaf.
  repeat (apply elem_of_cons in Hleaf as [-> | Hleaf]; [by vm_compute in Hjoin |]).
  by apply elem_of_nil in Hleaf.
Qed.

(** Right after a call of add that returns no error, no log of the new
    directory is on disk. *)
Lemma add_no_log fuel w name stdout stderr status tempdir w' leaf :
  fs_wf (fs w) →
  add fuel w name stdout stderr status = Some (tempdir, None, w') →
  leaf ∈ logs →
  path.Join [tempdir; leaf] = tempdir +:+ "/" +:+ leaf →
  path.Join [tempdir; name] ≠ path.Join [tempdir; leaf] →
  refuse w' = refuse w
  ∧ nul_free tempdir
  ∧ os.resolve (fs w') (tempdir +:+ "/" +:+ leaf) = inl ENOENT.
Proof.
  intros Hwf Hadd Hleaf Hjoin Hscript. rewrite Hjoin in Hscript.
  pose proof (Join_log_nonempty _ _ Hleaf Hjoin) as Hne.
  apply add_disk_return in Hadd as [(Hr & _ & _ & Hb & _) (Hnul & Hd & Ho)].
  split; [done |]. split; [done |]. simpl in Ho.
  destruct Hb as (_ & _ & _ & Hnew).
  unfold os.resolve. rewrite ancestors_log_dirs by done.
  rewrite (proj2 (walk_dirs _ _) Hd).
  destruct (decide (_ = "/")) as [Hroot|_];
    [by apply log_path_not_root in Hroot |].
  rewrite Ho; [| by intros Heq; rewrite Heq in Hscript | apply log_not_dirs].
  destruct (fs w !! _) as [n|] eqn:E; [| done]. exfalso.
  apply Hwf in E. rewrite ancestors_log_dirs in E by done.
  pose proof (proj1 (walk_dirs _ _) E) as Hall.
  assert (os.walk (fs w) (path.ancestors tempdir) = None) as Hwalk.
  { apply walk_dirs. intros x Hx. apply Hall, elem_of_app. by left. }
  assert (fs w !! tempdir = Some Dir) as Hdir.
  { apply Hall, elem_of_app. right. by apply list_elem_of_singleton. }
  unfold os.Stat, os.resolve in Hnew. rewrite Hwalk, Hdir in Hnew.
  destruct (os.denied w SysStat tempdir) as [e|] eqn:Eden;
    [apply denied_not_ENOENT in Eden; by destruct e |].
  by case_decide.
Qed.

Lemma fresh_world_fs_wf r : fs_wf (fs (fresh_world r)).
Proof.
  intros p n. unfold fresh_world; simpl.
  by intros [<- _]%lookup_singleton_Some.
Qed.

Lemma ReadFile_missing w p :
  os.resolve (fs w) p = inl ENOENT → ∃ e, os.ReadFile w p = inl e.
Proof.
  intros Hres. unfold os.ReadFile. rewrite Hres.
  destruct (os.denied w SysOpen p); by eexists.
Qed.

(** A mock that add has just made has not run: on a disk where every entry
    lies in directories, Ran is false for the directory add returned, as long
    as the script itself is not the marker file and the system lets the
    marker be looked at. *)
Theorem add_then_Ran fuel w name stdout stderr status tempdir w' :
  fs_wf (fs w) →
  add fuel w name stdout stderr status = Some (tempdir, None, w') →
  path.Join [tempdir; ".ran"] = tempdir +:+ "/.ran" →
  path.Join [tempdir; name] ≠ path.Join [tempdir; ".ran"] →
  refuse w SysStat (tempdir +:+ "/.ran") = None →
  Ran w' tempdir = false.
Proof.
  intros Hwf Hadd Hjoin Hscript Hstat.
  destruct (add_no_log _ _ _ _ _ _ _ _ ".ran" Hwf Hadd logs_ran Hjoin Hscript)
    as (Hr & Hnul & Hres).
  assert (os.denied w' SysStat (tempdir +:+ "/.ran") = None) as Hden.
  { apply denied_None. rewrite Hr. split; [| done].
    unfold nul_free. by rewrite contains_byte_append, Hnul. }
  unfold Ran. rewrite Hjoin. cbv zeta. unfold os.Stat. rewrite Hden.
  change (tempdir +:+ "/.ran") with (tempdir +:+ "/" +:+ ".ran").
  by rewrite Hres.
Qed.

Lemma add_then_Ran_witness :
  Ran world_after_add "/tmp/commandmocker-00000000000000ff" = false.
Proof.
  apply (add_then_Ran 8 (fresh_world no_refusal) "ssh" "" "HELP!" 1 _ _
           (fresh_world_fs_wf no_refusal) add_example); [reflexivity | | reflexivity].
  vm_compute. discriminate.
Defined.

(** A mock that add has just made has no logs: on a disk where every entry
    lies in directories, Output and Envs return the empty string and
    Parameters returns nil for the directory add returned, as long as the
    script itself is none of the three files. *)
Theorem add_then_no_logs fuel w name stdout stderr status tempdir w' :
  fs_wf (fs w) →
  add fuel w name stdout stderr status = Some (tempdir, None, w') →
  (∀ leaf, leaf ∈ [".out"; ".envs"; ".params"] →
     path.Join [tempdir; leaf] = tempdir +:+ "/" +:+ leaf
     ∧ path.Join [tempdir; name] ≠ path.Join [tempdir; leaf]) →
  Output w' tempdir = "" ∧ Envs w' tempdir = "" ∧ Parameters w' tempdir = [].
Proof.
  intros Hwf Hadd Hlogs.
  assert (∀ leaf, leaf ∈ [".out"; ".envs"; ".params"] → leaf ∈ logs →
          ∃ e, os.ReadFile w' (path.Join [tempdir; leaf]) = inl e) as Hread.
  { intros leaf Hleaf Hin. destruct (Hlogs leaf Hleaf) as [Hjoin Hscript].
    destruct (add_no_log _ _ _ _ _ _ _ _ leaf Hwf Hadd Hin Hjoin Hscript)
      as (_ & _ & Hres).
    rewrite Hjoin. by apply ReadFile_missing. }
  unfold Output, Envs, Parameters. cbv zeta.
  destruct (Hread ".out") as [? ->]; [by repeat constructor | apply logs_out |].
  destruct (Hread ".envs") as [? ->]; [by repeat constructor | apply logs_envs |].
  by destruct (Hread ".params") as [? ->]; [by repeat constructor | apply logs_params |].
Qed.

Lemma add_then_no_logs_witness :
  Output world_after_add "/tmp/commandmocker-00000000000000ff" = ""
  ∧ Envs world_after_add "/tmp/commandmocker-00000000000000ff" = ""
  ∧ Parameters world_after_add "/tmp/commandmocker-00000000000000ff" = [].
Proof.
  apply (add_then_no_logs 8 (fresh_world no_refusal) "ssh" "" "HELP!" 1 _ _
           (fresh_world_fs_wf no_refusal) add_example).
  intros leaf Hleaf.
  repeat (apply elem_of_cons in Hleaf as [-> | Hleaf];
          [split; [reflexivity | vm_compute; discriminate] |]).
  by apply elem_of_nil in Hleaf.
Defined.

(** ** [Add], [AddStderr] and [Error] *)

(** The three exported forms of add differ in the script they write: Add
    gives the text as standard output with status 0, AddStderr gives both
    texts with status 0, and Error gives the text as standard error, nothing
    as standard output, and the status. *)
Theorem exported_scripts fuel w name stdout stderr status tempdir w' :
  (Add fuel w name stdout = Some (tempdir, None, w') →
   fs w' !! path.Join [tempdir; name] = Some (File (script_text stdout "" 0)))
  ∧ (AddStderr fuel w name stdout stderr = Some (tempdir, None, w') →
     fs w' !! path.Join [tempdir; name]
     = Some (File (script_text stdout stderr 0)))
  ∧ (Error fuel w name stderr status = Some (tempdir, None, w') →
     fs w' !! path.Join [tempdir; name]
     = Some (File (script_text "" stderr status))).
Proof.
  unfold Add, AddStderr, Error.
  repeat split; intros Hadd;
    by apply add_files_return in Hadd as (_ & _ & _ & _ & _ & Hf).
Qed.

Lemma exported_scripts_witness :
  fs world_after_add !! path.Join ["/tmp/commandmocker-00000000000000ff"; "ssh"]
  = Some (File (script_text "" "HELP!" 1)).
Proof.
  exact (proj2 (proj2 (exported_scripts 8 (fresh_world no_refusal) "ssh" ""
                         "HELP!" 1 _ _)) add_example).
Defined.

